(** * VizAgent memory subsystem: a shallow embedding and its properties

    The development follows the Python sources

      - [plotly_agent/memory/memory_manager.py]
      - [plotly_agent/memory/memory_consolidation.py]
      - [plotly_agent/memory/context_trimmer.py]
      - [plotly_agent/state_storage.py]

    Conventions of the embedding.

    - A Python [str] is a Rocq [string]; every character is read as the
      code point with the same number (0..255).  The character classes of
      [str.isspace], [str.isalnum] and [str.lower] are the ones CPython
      uses on these code points.
    - A Python [int] is a [Z]; a [float] score is an exact rational [Q]
      (0.6 is [6 # 10]).
    - Mutation of the state object is explicit state passing: a function
      that mutates [state] returns the new state next to its result.
    - The clock ([datetime.now]) is an explicit argument.
    - A raised exception is the [Raise] constructor of [result].
    - The disk is a finite map from paths to file contents; which paths
      can be opened for writing is an explicit argument [can_write], and
      a write that is refused is the [except] branch of the caller. *)

From Stdlib Require Import QArith Lqa.
From stdpp Require Import gmap strings list fin_maps sorting.
From Stdlib Require Import Ascii.
From Stdlib Require OrderedTypeEx.

Local Open Scope Z_scope.

(** ** Python built-ins on strings *)

Module Py.

Definition code (c : ascii) : N := N_of_ascii c.

Definition between (lo hi : N) (c : ascii) : bool :=
  ((lo <=? code c) && (code c <=? hi))%N.

(** [str.isspace] on one character. *)
Definition isspace (c : ascii) : bool :=
  between 9 13 c || between 28 32 c
  || (code c =? 133)%N || (code c =? 160)%N.

(** [str.isalnum] on one character. *)
Definition isalnum (c : ascii) : bool :=
  between 48 57 c || between 65 90 c || between 97 122 c
  || (code c =? 170)%N || between 178 179 c || (code c =? 181)%N
  || between 185 186 c || between 188 190 c
  || between 192 214 c || between 216 246 c || between 248 255 c.

Definition lower_char (c : ascii) : ascii :=
  if between 65 90 c || between 192 214 c || between 216 222 c
  then ascii_of_N (code c + 32) else c.

(** [s.lower()] *)
Fixpoint lower (s : string) : string :=
  match s with
  | EmptyString => EmptyString
  | String c s' => String (lower_char c) (lower s')
  end.

Definition chars (s : string) : list ascii := String.list_ascii_of_string s.
Definition str (l : list ascii) : string := String.string_of_list_ascii l.

Fixpoint drop_space (l : list ascii) : list ascii :=
  match l with
  | c :: l' => if isspace c then drop_space l' else l
  | [] => []
  end.

(** [s.strip()] *)
Definition strip (s : string) : string :=
  str (rev (drop_space (rev (drop_space (chars s))))).

(** [s.split()]: the maximal runs of non-space characters, in order.
    [cur] is the run being read, reversed. *)
Fixpoint split_aux (cur : list ascii) (l : list ascii) : list string :=
  match l with
  | [] => match cur with [] => [] | _ => [str (rev cur)] end
  | c :: l' =>
      if isspace c
      then match cur with
           | [] => split_aux [] l'
           | _ => str (rev cur) :: split_aux [] l'
           end
      else split_aux (c :: cur) l'
  end.

Definition split (s : string) : list string := split_aux [] (chars s).

(** [s[:n]] for [n >= 0]. *)
Definition slice_to (n : nat) (s : string) : string :=
  str (take n (chars s)).

Fixpoint is_prefix (p l : list ascii) : bool :=
  match p, l with
  | [], _ => true
  | _ :: _, [] => false
  | a :: p', b :: l' => Ascii.eqb a b && is_prefix p' l'
  end.

Fixpoint find_sub (p l : list ascii) : bool :=
  is_prefix p l || match l with [] => false | _ :: l' => find_sub p l' end.

(** [needle in hay] for strings. *)
Definition contains (needle hay : string) : bool :=
  find_sub (chars needle) (chars hay).

(** [sep.join(parts)] *)
Fixpoint join (sep : string) (parts : list string) : string :=
  match parts with
  | [] => EmptyString
  | [p] => p
  | p :: rest => p +:+ sep +:+ join sep rest
  end.

(** Truth value of a string: non-empty. *)
Definition truthy (s : string) : bool :=
  match s with EmptyString => false | _ => true end.

(** [list(dict.fromkeys(l))]: first occurrences, in order. *)
Fixpoint fromkeys_aux `{EqDecision A} (seen : list A) (l : list A) : list A :=
  match l with
  | [] => []
  | x :: l' =>
      if decide (x ∈ seen) then fromkeys_aux seen l'
      else x :: fromkeys_aux (x :: seen) l'
  end.

Definition fromkeys `{EqDecision A} (l : list A) : list A := fromkeys_aux [] l.

(** [sorted(l, key=key)] for string keys: a stable sort ([<] on [str]
    is the lexicographic order on code points). *)
Fixpoint insert_by {A} (key : A → string) (x : A) (l : list A) : list A :=
  match l with
  | [] => [x]
  | y :: l' =>
      if String.leb (key x) (key y) then x :: l else y :: insert_by key x l'
  end.

Fixpoint sorted {A} (key : A → string) (l : list A) : list A :=
  match l with
  | [] => []
  | x :: l' => insert_by key x (sorted key l')
  end.

(** [l[i]] with Python's negative indices; [None] is [IndexError]. *)
Definition index {A} (l : list A) (i : Z) : option A :=
  if i <? 0
  then if - i <=? Z.of_nat (length l)
       then l !! Z.to_nat (Z.of_nat (length l) + i) else None
  else l !! Z.to_nat i.

End Py.

(** Exceptions the modelled code can raise. *)
Inductive exn := IndexError.

Inductive result (A : Type) := Ok (a : A) | Raise (e : exn).
Arguments Ok {A} a.
Arguments Raise {A} e.

(** ** memory_manager.py: the data model *)

(** [MemoryNote] (a dataclass). *)
Record MemoryNote := mkNote {
  text : string;
  last_update_date : string;
  keywords : list string
}.

(** The dictionary form of a note, as stored in the state and in JSON. *)
Record NoteDict := mkNoteDict {
  d_text : string;
  d_last_update_date : string;
  d_keywords : list string
}.

Definition to_dict (n : MemoryNote) : NoteDict :=
  mkNoteDict (text n) (last_update_date n) (keywords n).

Definition from_dict (d : NoteDict) : MemoryNote :=
  mkNote (d_text d) (d_last_update_date d) (d_keywords d).

(** A memory scope is a dictionary whose only modelled key is [notes];
    [None] stands for a dictionary without that key.  An entry holding
    Python's [None] instead of a list is outside the model. *)
Record MemoryDict := mkMemory { notes : option (list NoteDict) }.

(** [memory.get("notes", [])] *)
Definition get_notes (m : MemoryDict) : list NoteDict := default [] (notes m).

(** JSON values held by the profile. *)
Inductive Value :=
  | VNone
  | VBool (b : bool)
  | VInt (z : Z)
  | VStr (s : string)
  | VStrs (l : list string).

Record HistoryEntry := mkEntry {
  timestamp : string;
  chart_type : string;
  story_summary : string;
  success : bool;
  code_preview : option string
}.

Record PlotlyAgentState := mkState {
  user_id : string;
  profile : gmap string Value;
  global_memory : MemoryDict;
  session_memory : MemoryDict;
  visualization_history : list HistoryEntry;
  system_frontmatter : string;
  global_memories_md : string;
  session_memories_md : string;
  inject_session_memories_next_turn : bool
}.

Definition default_profile : gmap string Value :=
  <["preferred_chart_types" := VStrs []]>
  (<["color_scheme" := VStr "default"]>
  (<["audience" := VStr "general"]>
  (<["domain" := VNone]>
  (<["technical_level" := VStr "intermediate"]> ∅)))).

(** [PlotlyAgentState.create_default(user_id)] *)
Definition create_default (uid : string) : PlotlyAgentState :=
  mkState uid default_profile (mkMemory (Some [])) (mkMemory (Some []))
          [] EmptyString EmptyString EmptyString false.

Definition set_session_memory (st : PlotlyAgentState) (m : MemoryDict) :=
  mkState (user_id st) (profile st) (global_memory st) m
          (visualization_history st) (system_frontmatter st)
          (global_memories_md st) (session_memories_md st)
          (inject_session_memories_next_turn st).

Definition set_global_memory (st : PlotlyAgentState) (m : MemoryDict) :=
  mkState (user_id st) (profile st) m (session_memory st)
          (visualization_history st) (system_frontmatter st)
          (global_memories_md st) (session_memories_md st)
          (inject_session_memories_next_turn st).

Definition set_profile (st : PlotlyAgentState) (p : gmap string Value) :=
  mkState (user_id st) p (global_memory st) (session_memory st)
          (visualization_history st) (system_frontmatter st)
          (global_memories_md st) (session_memories_md st)
          (inject_session_memories_next_turn st).

Definition set_history (st : PlotlyAgentState) (h : list HistoryEntry) :=
  mkState (user_id st) (profile st) (global_memory st) (session_memory st)
          h (system_frontmatter st)
          (global_memories_md st) (session_memories_md st)
          (inject_session_memories_next_turn st).

Definition set_inject (st : PlotlyAgentState) (b : bool) :=
  mkState (user_id st) (profile st) (global_memory st) (session_memory st)
          (visualization_history st) (system_frontmatter st)
          (global_memories_md st) (session_memories_md st) b.

(** ** memory_manager.py: operations *)

(** The comprehension
    [[k.strip().lower() for k in keywords if k.strip()][:5]]. *)
Definition clean_keywords (kws : list string) : list string :=
  take 5 (map (λ k, Py.lower (Py.strip k))
              (List.filter (λ k, Py.truthy (Py.strip k)) kws)).

(** [add_memory_note(state, text, keywords, to_session)]; [today] is the
    value of [today_iso_utc()]. *)
Definition add_memory_note (today : string) (st : PlotlyAgentState)
    (txt : string) (kws : list string) (to_session : bool)
    : MemoryNote * PlotlyAgentState :=
  let note := mkNote (Py.strip txt) today (clean_keywords kws) in
  if to_session
  then (note, set_session_memory st
           (mkMemory (Some (get_notes (session_memory st) ++ [to_dict note]))))
  else (note, set_global_memory st
           (mkMemory (Some (get_notes (global_memory st) ++ [to_dict note])))).

(** [update_profile(state, field, value)] *)
Definition update_profile (st : PlotlyAgentState) (field : string) (value : Value)
    : bool * PlotlyAgentState :=
  if decide (field ∈ dom (profile st))
  then (true, set_profile st (<[field := value]> (profile st)))
  else (false, st).

(** [add_visualization_to_history]; [now] is the ISO timestamp read from
    the clock. *)
Definition add_visualization_to_history (now : string) (st : PlotlyAgentState)
    (ctype summary : string) (code_snippet : option string) (ok : bool)
    : PlotlyAgentState :=
  let entry :=
    mkEntry now ctype summary ok
      (match code_snippet with
       | Some s => if Py.truthy s then Some (Py.slice_to 200 s) else None
       | None => None
       end) in
  let h := visualization_history st ++ [entry] in
  if (50 <? Z.of_nat (length h))
  then set_history st (drop (length h - 50)%nat h)
  else set_history st h.

(** ** memory_consolidation.py *)

(** [set(note.keywords)] and [set(note.text.lower().split())] *)
Definition keyword_set (n : MemoryNote) : gset string :=
  list_to_set (keywords n).

Definition word_set (n : MemoryNote) : gset string :=
  list_to_set (Py.split (Py.lower (text n))).

(** [overlap / union if union > 0 else 0.0] *)
Definition ratio (overlap union : nat) : Q :=
  if (0 <? Z.of_nat union)
  then Z.of_nat overlap # Z.to_pos (Z.of_nat union)
  else 0%Q.

Definition jaccard (a b : gset string) : Q :=
  ratio (size (a ∩ b)) (size (a ∪ b)).

Definition calculate_similarity (note1 note2 : MemoryNote) : Q :=
  let keywords1 := keyword_set note1 in
  let keywords2 := keyword_set note2 in
  if bool_decide (keywords1 = ∅) || bool_decide (keywords2 = ∅)
  then 0%Q
  else
    let keyword_similarity := jaccard keywords1 keywords2 in
    let text_similarity := jaccard (word_set note1) (word_set note2) in
    ((6 # 10) * keyword_similarity + (4 # 10) * text_similarity)%Q.

Definition default_threshold : Q := 6 # 10.

Definition are_memories_similar (note1 note2 : MemoryNote) (threshold : Q) : bool :=
  Qle_bool threshold (calculate_similarity note1 note2).

(** [_merge_similar_notes(notes)]; [sorted_notes[-1]] raises [IndexError]
    on an empty list. *)
Definition _merge_similar_notes (notes : list MemoryNote) : result MemoryNote :=
  let sorted_notes := Py.sorted last_update_date notes in
  match Py.index sorted_notes (-1) with
  | None => Raise IndexError
  | Some most_recent =>
      let all_keywords := concat (map keywords sorted_notes) in
      let unique_keywords := take 5 (Py.fromkeys all_keywords) in
      Ok (mkNote (text most_recent) (last_update_date most_recent) unique_keywords)
  end.

Section DedupLoop.
Variable threshold : Q.
Variable sorted_notes : list MemoryNote.

(** Body of [for j in range(i + 1, len(sorted_notes))]; the loop state
    is [(similar_notes, merged_indices)]. *)
Definition inner_step (note : MemoryNote)
    (acc : list MemoryNote * gset nat) (j : nat) : list MemoryNote * gset nat :=
  if decide (j ∈ acc.2) then acc
  else match sorted_notes !! j with
       | Some nj =>
           if are_memories_similar note nj threshold
           then (acc.1 ++ [nj], acc.2 ∪ {[j]})
           else acc
       | None => acc
       end.

Definition collect_similar (i : nat) (note : MemoryNote) (merged_indices : gset nat)
    : list MemoryNote * gset nat :=
  foldl (inner_step note) ([note], merged_indices)
        (seq (S i) (length sorted_notes - S i)).

(** Body of [for i, note in enumerate(sorted_notes)]; the loop state is
    [(merged_indices, result)].  [emit note similar_notes] is what the
    iteration appends to [result]. *)
Definition outer_step {R} (emit : MemoryNote → list MemoryNote → R)
    (acc : gset nat * list R) (p : nat * MemoryNote) : gset nat * list R :=
  if decide (p.1 ∈ acc.1) then acc
  else
    let r := collect_similar p.1 p.2 acc.1 in
    (r.2, acc.2 ++ [emit p.2 r.1]).

Definition dedup_loop {R} (emit : MemoryNote → list MemoryNote → R) : list R :=
  (foldl (outer_step emit) (∅, []) (imap pair sorted_notes)).2.
End DedupLoop.

(** What one iteration appends: the merged cluster, or the note itself. *)
Definition emit_note (note : MemoryNote) (similar_notes : list MemoryNote)
    : result MemoryNote :=
  if (1 <? Z.of_nat (length similar_notes))
  then _merge_similar_notes similar_notes
  else Ok note.

(** The first exception of a run, or all its values. *)
Fixpoint collect {A} (l : list (result A)) : result (list A) :=
  match l with
  | [] => Ok []
  | Raise e :: _ => Raise e
  | Ok a :: l' =>
      match collect l' with
      | Ok r => Ok (a :: r)
      | Raise e => Raise e
      end
  end.

Definition deduplicate_memories (notes : list MemoryNote) (threshold : Q)
    : result (list MemoryNote) :=
  match notes with
  | [] => Ok []
  | _ =>
      let sorted_notes := Py.sorted last_update_date notes in
      collect (dedup_loop threshold sorted_notes emit_note)
  end.

(** The clusters ([note], [similar_notes]) the loop of
    [deduplicate_memories] forms, one per appended result. *)
Definition dedup_clusters (notes : list MemoryNote) (threshold : Q)
    : list (MemoryNote * list MemoryNote) :=
  dedup_loop threshold (Py.sorted last_update_date notes) pair.

Record ConsolidationStats := mkStats {
  before_count : Z;
  after_count : Z;
  merged_count : Z;
  session_notes_added : Z
}.

Definition consolidate_session_memories (st : PlotlyAgentState)
    : result (ConsolidationStats * PlotlyAgentState) :=
  let session_notes := map from_dict (get_notes (session_memory st)) in
  let global_notes := map from_dict (get_notes (global_memory st)) in
  let before := Z.of_nat (length global_notes) + Z.of_nat (length session_notes) in
  let all_notes := global_notes ++ session_notes in
  match deduplicate_memories all_notes default_threshold with
  | Raise e => Raise e
  | Ok deduplicated =>
      let st1 := set_global_memory st (mkMemory (Some (map to_dict deduplicated))) in
      let st2 := set_session_memory st1 (mkMemory (Some [])) in
      let after := Z.of_nat (length deduplicated) in
      Ok (mkStats before after (before - after) (Z.of_nat (length session_notes)), st2)
  end.

(** ** context_trimmer.py *)

Definition DEFAULT_MAX_TURNS : Z := 10.
Definition MIN_TURNS_TO_KEEP : Z := 3.

(** A transcript message: a dictionary read through [get('role')] and
    [get('content', '')]; [None] is an absent key. *)
Record Message := mkMsg {
  role : option string;
  content : option string
}.

Definition is_user (m : Message) : bool :=
  bool_decide (role m = Some "user").

Definition get_content (m : Message) : string :=
  default EmptyString (content m).

Definition user_messages (conversation_history : list Message) : list Message :=
  List.filter is_user conversation_history.

Definition should_trim_conversation (conversation_history : list Message)
    (max_turns : Z) : bool :=
  max_turns <? Z.of_nat (length (user_messages conversation_history)).

Fixpoint enumerate_from {A} (i : nat) (l : list A) : list (nat * A) :=
  match l with
  | [] => []
  | x :: l' => (i, x) :: enumerate_from (S i) l'
  end.

(** [[i for i, m in enumerate(conversation_history) if m.get('role') == 'user']] *)
Definition user_indices (conversation_history : list Message) : list nat :=
  map fst (List.filter (λ p, is_user (snd p)) (enumerate_from 0 conversation_history)).

Definition chart_types : list string :=
  ["bar"; "line"; "scatter"; "pie"; "histogram"].

(** What one message adds to [context_points]. *)
Definition context_points_of (msg : Message) : list string :=
  let content := Py.lower (get_content msg) in
  (if (Py.contains "upload" content || Py.contains "data" content) && is_user msg
   then ["User uploaded/discussed data"] else [])
  ++ (if is_user msg && (Py.contains "prefer" content || Py.contains "like" content
                         || Py.contains "want" content)
      then ["User stated: " +:+ Py.slice_to 100 (get_content msg) +:+ "..."]
      else [])
  ++ (match List.find (λ chart_type, Py.contains chart_type content) chart_types with
      | Some chart_type => ["Discussed " +:+ chart_type +:+ " charts"]
      | None => []
      end).

Definition _extract_context_from_trimmed (messages : list Message) : string :=
  let context_points := concat (map context_points_of messages) in
  match context_points with
  | [] => "Earlier conversation trimmed (no specific context preserved)"
  | _ =>
      let unique_points := take 5 (Py.fromkeys context_points) in
      "Earlier in conversation: " +:+ Py.join "; " unique_points
  end.

(** [trim_conversation]; the result is
    [(kept_messages, number removed, state after the call)]. *)
Definition trim_conversation (today : string)
    (conversation_history : list Message) (st : PlotlyAgentState)
    (max_turns : Z) (preserve_context : bool)
    : result (list Message * Z * PlotlyAgentState) :=
  if negb (should_trim_conversation conversation_history max_turns)
  then Ok (conversation_history, 0, st)
  else
    let idx := user_indices conversation_history in
    if Z.of_nat (length idx) <=? max_turns
    then Ok (conversation_history, 0, st)
    else
      match Py.index idx (- max_turns) with
      | None => Raise IndexError
      | Some cutoff_index =>
          let trimmed_messages := take cutoff_index conversation_history in
          let kept_messages := drop cutoff_index conversation_history in
          let st' :=
            match preserve_context, trimmed_messages with
            | true, _ :: _ =>
                let context_summary := _extract_context_from_trimmed trimmed_messages in
                let st1 :=
                  if Py.truthy context_summary
                  then snd (add_memory_note today st context_summary
                              ["context"; "conversation"] true)
                  else st in
                set_inject st1 true
            | _, _ => st
            end in
          Ok (kept_messages, Z.of_nat (length trimmed_messages), st')
      end.

(** ** state_storage.py *)

Definition DEFAULT_STATES_DIR : string := "states".

(** A path: the states directory and the file name inside it. *)
Record Path := mkPath { path_dir : string; path_name : string }.

Global Instance Path_eq_dec : EqDecision Path.
Proof. solve_decision. Defined.

Global Instance Path_countable : Countable Path.
Proof.
  apply (inj_countable' (λ p, (path_dir p, path_name p))
                        (λ q, mkPath q.1 q.2)).
  by intros [].
Defined.

(** The JSON object of a snapshot, read through [data.get(key, default)]. *)
Record StateDict := mkStateDict {
  sd_user_id : option string;
  sd_profile : option (gmap string Value);
  sd_global_memory : option MemoryDict;
  sd_session_memory : option MemoryDict;
  sd_visualization_history : option (list HistoryEntry);
  sd_inject_session_memories_next_turn : option bool
}.

(** [PlotlyAgentState.to_dict] *)
Definition state_to_dict (st : PlotlyAgentState) : StateDict :=
  mkStateDict (Some (user_id st)) (Some (profile st))
    (Some (global_memory st)) (Some (session_memory st))
    (Some (visualization_history st))
    (Some (inject_session_memories_next_turn st)).

(** [PlotlyAgentState.from_dict] *)
Definition state_from_dict (d : StateDict) : PlotlyAgentState :=
  mkState (default "anonymous" (sd_user_id d))
    (default ∅ (sd_profile d))
    (default (mkMemory (Some [])) (sd_global_memory d))
    (default (mkMemory (Some [])) (sd_session_memory d))
    (default [] (sd_visualization_history d))
    EmptyString EmptyString EmptyString
    (default false (sd_inject_session_memories_next_turn d)).

(** What a file holds: a JSON snapshot ([json.dump] followed by
    [json.load] gives the object back) or bytes that do not parse. *)
Inductive FileContent :=
  | Json (d : StateDict)
  | Garbage.

(** The files on disk.  Directories are not modelled ([mkdir] with
    [exist_ok] always succeeds). *)
Abbreviation FileSystem := (gmap Path FileContent).

(** [with open(path, 'w') as f: json.dump(state_dict, f)].  The
    environment decides whether a path can be opened for writing:
    [can_write path] is false where [open] raises [OSError] (a file name
    longer than the file system allows, a directory or file that refuses
    the write), and then nothing is written.  The values of a snapshot
    are JSON values, so [json.dump] itself does not raise. *)
Definition write_json (can_write : Path → bool) (path : Path) (d : StateDict)
    (fs : FileSystem) : option FileSystem :=
  if can_write path then Some (<[path := Json d]> fs) else None.

(** One environment: a file system that takes file names of at most 255
    bytes ([NAME_MAX]) and refuses longer ones.  In UTF-8 a code point
    below 128 takes one byte, the others of the range take two. *)
Definition NAME_MAX : nat := 255.

Definition utf8_length (s : string) : nat :=
  sum_list (map (λ c, if (Py.code c <? 128)%N then 1%nat else 2%nat) (Py.chars s)).

Definition name_fits (path : Path) : bool :=
  (utf8_length (path_name path) <=? NAME_MAX)%nat.

Definition get_states_directory (base_dir : option string) : string :=
  match base_dir with
  | Some d => if Py.truthy d then d else DEFAULT_STATES_DIR
  | None => DEFAULT_STATES_DIR
  end.

(** [[c for c in user_id if c.isalnum() or c in ('_', '-')]] *)
Definition safe_char (c : ascii) : bool :=
  Py.isalnum c || Ascii.eqb c "_" || Ascii.eqb c "-".

Definition safe_user_id (uid : string) : string :=
  Py.str (List.filter safe_char (Py.chars uid)).

Definition get_state_file_path (uid : string) (base_dir : option string) : Path :=
  mkPath (get_states_directory base_dir) (safe_user_id uid +:+ ".json").

(** [save_state(state, base_dir)]: [True] after the write, [False] from
    the [except] branch when the write raised. *)
Definition save_state (can_write : Path → bool) (st : PlotlyAgentState)
    (base_dir : option string) (fs : FileSystem) : bool * FileSystem :=
  let file_path := get_state_file_path (user_id st) base_dir in
  match write_json can_write file_path (state_to_dict st) fs with
  | Some fs' => (true, fs')
  | None => (false, fs)
  end.

(** [load_state(user_id, base_dir, create_if_missing)]; the answer of the
    [save_state] call of the create branch is not looked at. *)
Definition load_state (can_write : Path → bool) (uid : string)
    (base_dir : option string) (create_if_missing : bool) (fs : FileSystem)
    : option PlotlyAgentState * FileSystem :=
  let file_path := get_state_file_path uid base_dir in
  match fs !! file_path with
  | None =>
      if create_if_missing
      then let st := create_default uid in
           (Some st, snd (save_state can_write st base_dir fs))
      else (None, fs)
  | Some (Json d) => (Some (state_from_dict d), fs)
  | Some Garbage =>
      (if create_if_missing then Some (create_default uid) else None, fs)
  end.

(** A recorded call of [add_visualization_to_history]: the clock reading
    and the arguments. *)
Record HistoryCall := mkCall {
  call_now : string;
  call_chart_type : string;
  call_story_summary : string;
  call_code_snippet : option string;
  call_success : bool
}.

(** The entry a call appends. *)
Definition entry_of (c : HistoryCall) : HistoryEntry :=
  mkEntry (call_now c) (call_chart_type c) (call_story_summary c) (call_success c)
    (match call_code_snippet c with
     | Some s => if Py.truthy s then Some (Py.slice_to 200 s) else None
     | None => None
     end).

Definition apply_call (st : PlotlyAgentState) (c : HistoryCall) : PlotlyAgentState :=
  add_visualization_to_history (call_now c) st (call_chart_type c)
    (call_story_summary c) (call_code_snippet c) (call_success c).

(** A sequence of calls, oldest first. *)
Definition run_history (st : PlotlyAgentState) (calls : list HistoryCall)
    : PlotlyAgentState :=
  foldl apply_call st calls.

(** [l[-n:]] for [n > 0]. *)
Definition last_n {A} (n : nat) (l : list A) : list A :=
  drop (length l - n) l.

(** ** Further Python built-ins *)

(** [l[start:]] with Python's negative indices. *)
Definition slice_from {A} (start : Z) (l : list A) : list A :=
  if start <? 0
  then drop (Z.to_nat (Z.max 0 (Z.of_nat (length l) + start))) l
  else drop (Z.to_nat start) l.

(** [l[:stop]] with Python's negative indices. *)
Definition slice_until {A} (stop : Z) (l : list A) : list A :=
  if stop <? 0
  then take (Z.to_nat (Z.max 0 (Z.of_nat (length l) + stop))) l
  else take (Z.to_nat stop) l.

(** [sorted(l, key=key, reverse=True)]: the list is reversed, sorted
    stably and reversed again, so equal keys keep their order. *)
Definition sorted_desc {A} (key : A → string) (l : list A) : list A :=
  rev (Py.sorted key (rev l)).

(** The newline character as a string. *)
Definition newline : string := String (ascii_of_nat 10) EmptyString.

(** ** memory_manager.py: searching and reading *)

(** [search_memories(state, keywords, include_session, include_global)];
    [None] is the default argument. *)
Definition search_memories (st : PlotlyAgentState) (kws : option (list string))
    (include_session include_global : bool) : list MemoryNote :=
  let search_keywords : gset string :=
    list_to_set (map (λ k, Py.lower (Py.strip k)) (default [] kws)) in
  let hit (note : MemoryNote) : bool :=
    bool_decide (search_keywords = ∅)
    || existsb (λ kw, bool_decide (kw ∈ search_keywords)) (keywords note) in
  let scan (m : MemoryDict) : list MemoryNote :=
    match notes m with
    | Some l => List.filter hit (map from_dict l)
    | None => []
    end in
  (if include_global then scan (global_memory st) else [])
  ++ (if include_session then scan (session_memory st) else []).

(** [get_recent_visualizations(state, limit)] *)
Definition get_recent_visualizations (st : PlotlyAgentState) (limit : Z)
    : list HistoryEntry :=
  match visualization_history st with
  | [] => []
  | h => slice_from (- limit) h
  end.

(** [clear_session_memory(state)] *)
Definition clear_session_memory (st : PlotlyAgentState) : PlotlyAgentState :=
  set_inject (set_session_memory st (mkMemory (Some []))) false.

(** ** memory_consolidation.py: maintenance *)

Record CleanupStats := mkCleanupStats {
  cleanup_before_count : Z;
  cleanup_after_count : Z;
  cleanup_removed_count : Z
}.

(** [cleanup_old_memories(state, max_age_days, max_memories)].
    [days_old d] is the value of
    [(current_date - datetime.fromisoformat(d)).days], or [None] when that
    expression raises (the [except] branch keeps the note). *)
Definition cleanup_old_memories (days_old : string → option Z)
    (st : PlotlyAgentState) (max_age_days max_memories : Z)
    : CleanupStats * PlotlyAgentState :=
  let all := map from_dict (get_notes (global_memory st)) in
  let young (note : MemoryNote) : bool :=
    match days_old (last_update_date note) with
    | Some age_days => age_days <=? max_age_days
    | None => true
    end in
  let recent_notes := List.filter young all in
  let recent_notes :=
    if max_memories <? Z.of_nat (length recent_notes)
    then slice_until max_memories (sorted_desc last_update_date recent_notes)
    else recent_notes in
  let before := Z.of_nat (length all) in
  let after := Z.of_nat (length recent_notes) in
  (mkCleanupStats before after (before - after),
   set_global_memory st (mkMemory (Some (map to_dict recent_notes)))).

(** ** context_trimmer.py: token budget and the conversation manager *)

(** [len(msg.get('content', '')) // 4] *)
Definition message_tokens (msg : Message) : Z :=
  Z.of_nat (String.length (get_content msg)) / 4.

Definition total_chars (conversation_history : list Message) : Z :=
  foldr (λ msg acc, Z.of_nat (String.length (get_content msg)) + acc) 0
        conversation_history.

Definition estimate_conversation_tokens (conversation_history : list Message) : Z :=
  total_chars conversation_history / 4.

(** [_preserve_trimmed_context(messages, state)] *)
Definition _preserve_trimmed_context (today : string) (messages : list Message)
    (st : PlotlyAgentState) : PlotlyAgentState :=
  let context := _extract_context_from_trimmed messages in
  if Py.truthy context
  then snd (add_memory_note today st context ["context"; "trimmed"] true)
  else st.

(** The loop [for msg in reversed(older_messages)] of
    [smart_trim_conversation], on the reversed list; the loop state is
    [(kept_older, current_older_tokens)] and a message that does not fit
    ends the loop. *)
Fixpoint keep_older (available_tokens : Z) (reversed_older : list Message)
    (kept_older : list Message) (current_older_tokens : Z) : list Message :=
  match reversed_older with
  | [] => kept_older
  | msg :: rest =>
      if current_older_tokens + message_tokens msg <=? available_tokens
      then keep_older available_tokens rest (msg :: kept_older)
             (current_older_tokens + message_tokens msg)
      else kept_older
  end.

Definition smart_trim_conversation (today : string)
    (conversation_history : list Message) (st : PlotlyAgentState)
    (target_tokens preserve_recent : Z)
    : result (list Message * PlotlyAgentState) :=
  if estimate_conversation_tokens conversation_history <=? target_tokens
  then Ok (conversation_history, st)
  else
    let idx := user_indices conversation_history in
    if Z.of_nat (length idx) <=? preserve_recent
    then Ok (conversation_history, st)
    else
      match Py.index idx (- preserve_recent) with
      | None => Raise IndexError
      | Some preserve_from =>
          let recent_messages := drop preserve_from conversation_history in
          let available_tokens :=
            target_tokens - estimate_conversation_tokens recent_messages in
          if available_tokens <=? 0
          then
            Ok (recent_messages,
                set_inject
                  (_preserve_trimmed_context today
                     (take preserve_from conversation_history) st) true)
          else
            let older_messages := take preserve_from conversation_history in
            let kept_older := keep_older available_tokens (rev older_messages) [] 0 in
            let removed :=
              slice_until (Z.of_nat (length older_messages)
                           - Z.of_nat (length kept_older)) older_messages in
            let st' :=
              match removed with
              | [] => st
              | _ => set_inject (_preserve_trimmed_context today removed st) true
              end in
            Ok (kept_older ++ recent_messages, st')
      end.

(** [ConversationManager]: the state it holds and its settings. *)
Record ConversationManager := mkManager {
  cm_state : PlotlyAgentState;
  cm_max_turns : Z;
  cm_auto_trim : bool
}.

(** [ConversationManager.add_message]; the result is the returned history
    and the manager with its state after the call. *)
Definition add_message (today : string) (self : ConversationManager)
    (conversation_history : list Message) (role content : string)
    : result (list Message * ConversationManager) :=
  let conversation_history :=
    conversation_history ++ [mkMsg (Some role) (Some content)] in
  if cm_auto_trim self
     && should_trim_conversation conversation_history (cm_max_turns self)
  then
    match trim_conversation today conversation_history (cm_state self)
            (cm_max_turns self) true with
    | Ok (trimmed, _, st') =>
        Ok (trimmed, mkManager st' (cm_max_turns self) (cm_auto_trim self))
    | Raise e => Raise e
    end
  else Ok (conversation_history, self).

(** ** memory_injection.py *)

(** [render_memories_as_markdown(memories, title)] *)
Definition render_memories_as_markdown (memories : list NoteDict) (title : string)
    : string :=
  match memories with
  | [] => EmptyString
  | _ =>
      Py.join newline
        (("## " +:+ title +:+ newline)
         :: map (λ d, "- " +:+ d_text d +:+ " (Updated: "
                      +:+ d_last_update_date d +:+ ")") memories)
  end.

Definition should_reinject_session_memories (st : PlotlyAgentState) : bool :=
  inject_session_memories_next_turn st.

(** [create_reinjection_message(state)]: the message and the state with
    the flag cleared. *)
Definition create_reinjection_message (st : PlotlyAgentState)
    : string * PlotlyAgentState :=
  let session_md :=
    render_memories_as_markdown (get_notes (session_memory st))
      "Session Context (Reinjected)" in
  ("# Context Reinjection" +:+ newline +:+ newline
   +:+ "The conversation was trimmed to manage context length. Here are the key points from earlier in this session:"
   +:+ newline +:+ newline +:+ session_md +:+ newline +:+ newline
   +:+ "Continue the conversation with this context in mind.",
   set_inject st false).

(** [trim_memories_if_needed(state, max_global, max_session)] *)
Definition trim_notes (m : MemoryDict) (max_notes : Z) : MemoryDict :=
  match notes m with
  | Some l =>
      if max_notes <? Z.of_nat (length l)
      then mkMemory (Some (slice_from (- max_notes) l))
      else m
  | None => m
  end.

Definition trim_memories_if_needed (st : PlotlyAgentState)
    (max_global max_session : Z) : PlotlyAgentState :=
  let st1 := set_global_memory st (trim_notes (global_memory st) max_global) in
  set_session_memory st1 (trim_notes (session_memory st1) max_session).

(** ** state_storage.py: files of other operations *)

Definition state_exists (uid : string) (base_dir : option string)
    (fs : FileSystem) : bool :=
  bool_decide (is_Some (fs !! get_state_file_path uid base_dir)).

Definition delete_state (uid : string) (base_dir : option string)
    (fs : FileSystem) : bool * FileSystem :=
  let file_path := get_state_file_path uid base_dir in
  if bool_decide (is_Some (fs !! file_path))
  then (true, delete file_path fs)
  else (false, fs).




(** ** Statements and sample data used by the properties *)

(** Fifty-two distinct calls: the [i]-th one has a summary of [i] stars. *)
Definition sample_calls : list HistoryCall :=
  map (λ i, mkCall "2024-05-01T00:00:00+00:00" "bar"
              (Py.str (replicate i "*"%char)) None true)
      (seq 0 52).

Definition user_says (s : string) : Message := mkMsg (Some "user") (Some s).
Definition assistant_says (s : string) : Message :=
  mkMsg (Some "assistant") (Some s).

(** Five exchanges. *)
Definition five_turns : list Message :=
  [ user_says "q1"; assistant_says "r1"; user_says "q2"; assistant_says "r2";
    user_says "q3"; assistant_says "r3"; user_says "q4"; assistant_says "r4";
    user_says "q5"; assistant_says "r5" ].

(** The formula of the specification, without a guard: 0.6 times the
    Jaccard overlap of the keyword sets plus 0.4 times the Jaccard overlap
    of the lower-cased word sets. *)
Definition weighted_overlap (note1 note2 : MemoryNote) : Q :=
  ((6 # 10) * jaccard (keyword_set note1) (keyword_set note2)
   + (4 # 10) * jaccard (word_set note1) (word_set note2))%Q.

(** A note without keywords and with one word. *)
Definition bare_note : MemoryNote := mkNote "charts" "2024-05-01" [].

Definition bar_note_1 : MemoryNote :=
  mkNote "User prefers bar charts" "2024-05-01" ["chart_type"; "bar"].
Definition bar_note_2 : MemoryNote :=
  mkNote "User likes bar charts for comparisons" "2024-05-02" ["chart_type"; "bar"].

Definition strip_chars (l : list ascii) : list ascii :=
  rev (Py.drop_space (rev (Py.drop_space l))).

(** The claim of idempotence at one input: the first trim returns, the
    once-trimmed transcript no longer needs trimming, and the second trim
    returns it unchanged with 0 removed. *)
Definition second_trim_is_noop (today : string) (conv : list Message)
    (st : PlotlyAgentState) (max_turns : Z) : Prop :=
  ∃ kept removed st',
    trim_conversation today conv st max_turns true = Ok (kept, removed, st')
    ∧ should_trim_conversation kept max_turns = false
    ∧ trim_conversation today kept st' max_turns true = Ok (kept, 0, st').

(** A cluster: its seed comes first, the other members are notes of the
    pass that are similar to the seed. *)
Definition cluster_ok (threshold : Q) (sorted_notes : list MemoryNote)
    (c : MemoryNote * list MemoryNote) : Prop :=
  c.1 ∈ sorted_notes
  ∧ ∃ others, c.2 = c.1 :: others
      ∧ Forall (λ m, m ∈ sorted_notes
                     ∧ are_memories_similar c.1 m threshold = true) others.

(** The invariant of the outer loop of the deduplication pass before
    index [i]: no cluster seed is similar to an unmarked note still to
    come, seeds are pairwise not similar, and every cluster is well
    formed. *)
Definition outer_inv (threshold : Q) (sorted_notes : list MemoryNote)
    (i : nat) (acc : gset nat * list (MemoryNote * list MemoryNote)) : Prop :=
  (∀ c j nj, c ∈ acc.2 → (i ≤ j)%nat → sorted_notes !! j = Some nj →
     j ∉ acc.1 → are_memories_similar c.1 nj threshold = false)
  ∧ (∀ a b ca cb, (a < b)%nat → acc.2 !! a = Some ca → acc.2 !! b = Some cb →
       are_memories_similar ca.1 cb.1 threshold = false)
  ∧ Forall (cluster_ok threshold sorted_notes) acc.2.

(** The notes of [l], numbered from [k], whose index lies in [S]. *)
Definition pick_from (k : nat) (l : list MemoryNote) (S : gset nat)
    : list MemoryNote :=
  (filter (λ p : nat * MemoryNote, p.1 ∈ S) (enumerate_from k l)).*2.

(** Every pair of distinct notes of the list is below the threshold. *)
Definition pairwise_below (threshold : Q) (ns : list MemoryNote) : Prop :=
  ∀ i j ni nj, i ≠ j → ns !! i = Some ni → ns !! j = Some nj →
    (calculate_similarity ni nj < threshold)%Q.

(** The seed of a cluster stands at a position of the pass and every
    member of the cluster stands at that position or at a later one. *)
Definition seed_first (sorted_notes : list MemoryNote)
    (c : MemoryNote * list MemoryNote) : Prop :=
  ∃ i, sorted_notes !! i = Some c.1
    ∧ Forall (λ m, ∃ j, (i ≤ j)%nat ∧ sorted_notes !! j = Some m) c.2.



(** The state [from_dict] restores from a snapshot that holds a user
    identifier and nothing else: its profile is the empty dict. *)
Definition bare_snapshot_state : PlotlyAgentState :=
  state_from_dict (mkStateDict (Some "u") None None None None None).

(** Three notes with one text: the oldest and the newest share a keyword,
    the newest and the middle one share another. *)
Definition note_old : MemoryNote :=
  mkNote "user prefers bar charts" "2024-05-01" ["bar"].
Definition note_mid : MemoryNote :=
  mkNote "user prefers bar charts" "2024-05-02" ["chart"].
Definition note_new : MemoryNote :=
  mkNote "user prefers bar charts" "2024-05-03" ["bar"; "chart"].

Definition three_note_state : PlotlyAgentState :=
  set_session_memory
    (set_global_memory (create_default "u")
       (mkMemory (Some [to_dict note_old; to_dict note_new])))
    (mkMemory (Some [to_dict note_mid])).

(** Fifteen exchanges: [q0 r0 q1 r1 ...]. *)
Definition fifteen_turns : list Message :=
  concat (map (λ i, [user_says (Py.str (replicate i "q"%char));
                     assistant_says (Py.str (replicate i "r"%char))])
              (seq 0 15)).

(** The session of the consolidation scenario: three notes on bar charts
    saved to session memory on one day. *)
Definition bar_chart_session : PlotlyAgentState :=
  let st0 := create_default "u" in
  let st1 := snd (add_memory_note "2024-05-01" st0 "User prefers bar charts"
                    ["chart_type"; "bar"] true) in
  let st2 := snd (add_memory_note "2024-05-01" st1
                    "User likes bar charts for comparisons"
                    ["chart_type"; "bar"] true) in
  snd (add_memory_note "2024-05-01" st2 "User prefers bar chart visualizations"
         ["chart_type"; "bar"] true).

(** * Properties *)

(** ** Frame and result of [add_memory_note] *)

(** C10: [add_memory_note] appends exactly one note dictionary, the
    dictionary form of the returned note, to the targeted scope (session
    memory when [to_session] is true, global memory otherwise) and leaves
    every other field of the state as it was. *)
Theorem add_memory_note_frame today st txt kws to_session :
  let note := fst (add_memory_note today st txt kws to_session) in
  let st' := snd (add_memory_note today st txt kws to_session) in
  get_notes (if to_session then session_memory st' else global_memory st')
    = get_notes (if to_session then session_memory st else global_memory st)
        ++ [to_dict note]
  ∧ (if to_session then global_memory st' = global_memory st
     else session_memory st' = session_memory st)
  ∧ profile st' = profile st
  ∧ visualization_history st' = visualization_history st
  ∧ user_id st' = user_id st
  ∧ inject_session_memories_next_turn st' = inject_session_memories_next_turn st
  ∧ system_frontmatter st' = system_frontmatter st
  ∧ global_memories_md st' = global_memories_md st
  ∧ session_memories_md st' = session_memories_md st
  ∧ from_dict (to_dict note) = note.
Proof.
  unfold add_memory_note. destruct to_session; simpl; repeat split; done.
Qed.

(** ** [update_profile] *)

(** A state restored from a snapshot without a profile has the empty
    profile, and there [update_profile] refuses [audience], one of the five
    profile fields, and leaves the state as it was. *)
Lemma update_profile_refuses_audience :
  profile bare_snapshot_state = ∅
  ∧ update_profile bare_snapshot_state "audience" (VStr "executives")
    = (false, bare_snapshot_state).
Proof. split; [done |]. unfold update_profile. by rewrite decide_False. Qed.

(** C8: [update_profile] returns [true] and stores the value when the
    field is a key of the state's profile, returns [false] and leaves the
    whole state as it was when it is not; in both cases the set of profile
    keys is unchanged, every other key keeps its value, and nothing outside
    the profile changes.  The keys of a default state are the five profile
    fields. *)
Theorem update_profile_spec st field value :
  let r := update_profile st field value in
  (field ∈ dom (profile st) →
     fst r = true ∧ profile (snd r) !! field = Some value)
  ∧ (field ∉ dom (profile st) → r = (false, st))
  ∧ dom (profile (snd r)) = dom (profile st)
  ∧ (∀ k, k ≠ field → profile (snd r) !! k = profile st !! k)
  ∧ set_profile (snd r) (profile st) = set_profile st (profile st)
  ∧ (∀ uid, dom (profile (create_default uid))
       = {["preferred_chart_types"; "color_scheme"; "audience"; "domain";
           "technical_level"]}).
Proof.
  unfold update_profile. case_decide as Hin; simpl.
  - split; [intros _; split; [done | by rewrite lookup_insert_eq] |].
    split; [done |].
    split; [rewrite dom_insert_L; set_solver |].
    split; [intros k Hk; by rewrite lookup_insert_ne |].
    split; [done |].
    intros uid. simpl. unfold default_profile.
    rewrite !dom_insert_L, dom_empty_L. set_solver.
  - split; [done |]. split; [done |]. split; [done |].
    split; [done |]. split; [done |].
    intros uid. simpl. unfold default_profile.
    rewrite !dom_insert_L, dom_empty_L. set_solver.
Qed.

Lemma update_profile_spec_witness :
  let st := create_default "u" in
  fst (update_profile st "audience" (VStr "executives")) = true
  ∧ profile (snd (update_profile st "audience" (VStr "executives"))) !! "audience"
      = Some (VStr "executives")
  ∧ update_profile st "not_a_field" (VInt 1) = (false, st).
Proof.
  intros st.
  destruct (update_profile_spec st "audience" (VStr "executives"))
    as (Hyes & _ & _).
  destruct (update_profile_spec st "not_a_field" (VInt 1))
    as (_ & Hno & _).
  split; [apply Hyes; vm_compute; done |].
  split; [apply Hyes; vm_compute; done |].
  apply Hno. vm_compute. done.
Defined.

(** ** The visualization history *)

Lemma history_apply_call st c :
  visualization_history (apply_call st c)
  = last_n 50 (visualization_history st ++ [entry_of c]).
Proof.
  unfold apply_call, add_visualization_to_history, last_n.
  fold (entry_of c).
  destruct (50 <? _) eqn:Hlen; simpl; [done |].
  apply Z.ltb_ge in Hlen.
  replace (_ - 50)%nat with 0%nat by lia. done.
Qed.

Lemma last_n_length {A} n (l : list A) :
  length (last_n n l) = Nat.min n (length l).
Proof. unfold last_n. rewrite length_drop. lia. Qed.

Lemma last_n_snoc {A} n (l : list A) x :
  (1 ≤ n)%nat → last_n n (last_n n l ++ [x]) = last_n n (l ++ [x]).
Proof.
  intros Hn. unfold last_n at 1 3.
  rewrite !length_app, last_n_length. simpl. unfold last_n.
  destruct (decide (length l ≤ n)%nat) as [Hle | Hgt].
  - replace (length l - n)%nat with 0%nat by lia. simpl.
    f_equal. lia.
  - rewrite !drop_app_le by (rewrite ?length_drop; lia).
    rewrite drop_drop. do 2 f_equal. lia.
Qed.

Lemma last_n_app_ge {A} n (l1 l2 : list A) :
  (n ≤ length l2)%nat → last_n n (l1 ++ l2) = last_n n l2.
Proof.
  intros Hn. unfold last_n. rewrite length_app.
  rewrite drop_app_ge by lia. f_equal. lia.
Qed.

Lemma run_history_snoc st calls c :
  run_history st (calls ++ [c]) = apply_call (run_history st calls) c.
Proof. unfold run_history. by rewrite foldl_app. Qed.

Lemma run_history_last_n st calls :
  calls ≠ [] →
  visualization_history (run_history st calls)
  = last_n 50 (visualization_history st ++ map entry_of calls).
Proof.
  induction calls as [| c calls IH] using rev_ind; [done |].
  intros _. rewrite run_history_snoc, history_apply_call.
  rewrite map_app. simpl. rewrite app_assoc.
  destruct calls as [| c0 calls0].
  - simpl. by rewrite app_nil_r.
  - rewrite IH by done. apply last_n_snoc. lia.
Qed.

(** C6: after any non-empty sequence of [add_visualization_to_history]
    calls, from any state, the history is the last 50 of the initial
    entries followed by the appended ones, so it has at most 50 entries
    (also before the first call when the initial history respects the
    bound); once 50 or more entries were appended, exactly the 50 most
    recently appended survive, in insertion order. *)
Theorem history_bound st calls :
  let h := visualization_history (run_history st calls) in
  (calls ≠ [] →
     h = last_n 50 (visualization_history st ++ map entry_of calls))
  ∧ (calls ≠ [] ∨ (length (visualization_history st) ≤ 50)%nat →
     (length h ≤ 50)%nat)
  ∧ ((50 ≤ length calls)%nat → h = last_n 50 (map entry_of calls)).
Proof.
  simpl. split; [apply run_history_last_n |]. split.
  - destruct calls as [| c calls].
    + intros [Hne | Hle]; [done | exact Hle].
    + intros _. rewrite run_history_last_n by done.
      rewrite last_n_length. lia.
  - intros Hlen. rewrite run_history_last_n.
    + apply last_n_app_ge. by rewrite length_map.
    + intros ->. simpl in Hlen. lia.
Qed.

Lemma history_bound_witness :
  let h := visualization_history
             (run_history (create_default "u") sample_calls) in
  (length h ≤ 50)%nat ∧ h = last_n 50 (map entry_of sample_calls).
Proof.
  intros h.
  destruct (history_bound (create_default "u") sample_calls)
    as (_ & Hlen & Hlast).
  split.
  - apply Hlen. left. discriminate.
  - apply Hlast. vm_compute. lia.
Defined.

(** ** Persistence *)

Lemma chars_str l : Py.chars (Py.str l) = l.
Proof. apply String.list_ascii_of_string_of_list_ascii. Qed.

Lemma filter_sublist {A} (f : A → bool) (l : list A) :
  sublist (List.filter f l) l.
Proof.
  induction l as [| x l IH]; simpl; [constructor |].
  destruct (f x); by constructor.
Qed.


Lemma save_state_written can_write st base_dir fs :
  can_write (get_state_file_path (user_id st) base_dir) = true →
  save_state can_write st base_dir fs
  = (true, <[get_state_file_path (user_id st) base_dir
               := Json (state_to_dict st)]> fs).
Proof. intros Hw. unfold save_state, write_json. by rewrite Hw. Qed.




(** The traversal scenario: the identifier [demo user/../x] is stored
    under [demouserx.json] and read back from there. *)
Example demo_user_roundtrip :
  let st := create_default "demo user/../x" in
  get_state_file_path (user_id st) None = mkPath "states" "demouserx.json"
  ∧ fst (load_state name_fits "demo user/../x" None false
           (snd (save_state name_fits st None ∅)))
      = Some st.
Proof.
  intros st. split; [by vm_compute |].
  rewrite save_state_written by (by vm_compute). cbn [snd].
  unfold load_state. change (user_id st) with "demo user/../x".
  rewrite lookup_insert_eq. done.
Qed.


(** ** The trimmer *)

(** C4: [MIN_TURNS_TO_KEEP] is never consulted.  With [max_turns = 1]
    a five-turn transcript is cut down to its last exchange: one user
    turn, two messages, both below the floor of 3. *)
Theorem trim_conversation_below_floor :
  match trim_conversation "2024-05-01" five_turns (create_default "u") 1 true with
  | Ok (kept, removed, _) =>
      kept = [user_says "q5"; assistant_says "r5"]
      ∧ removed = 8
      ∧ Z.of_nat (length (user_messages kept)) < MIN_TURNS_TO_KEEP
      ∧ Z.of_nat (length kept) < MIN_TURNS_TO_KEEP
  | Raise _ => False
  end.
Proof. vm_compute. repeat split; congruence. Qed.

(** ** The deduplication loop *)

Lemma foldl_invariant {A B} (P : A → Prop) (f : A → B → A) (l : list B) (a : A) :
  P a → (∀ a x, x ∈ l → P a → P (f a x)) → P (foldl f a l).
Proof.
  revert a. induction l as [| x l IH]; intros a Ha Hstep; simpl; [done |].
  apply IH.
  - apply Hstep; [left | done].
  - intros a' y Hy. apply Hstep. by right.
Qed.

Lemma sorted_insert_length {A} (key : A → string) x (l : list A) :
  length (Py.insert_by key x l) = S (length l).
Proof.
  induction l as [| y l IH]; simpl; [done |].
  destruct (String.leb _ _); simpl; [done | by rewrite IH].
Qed.

Lemma sorted_length {A} (key : A → string) (l : list A) :
  length (Py.sorted key l) = length l.
Proof.
  induction l as [| x l IH]; simpl; [done |].
  by rewrite sorted_insert_length, IH.
Qed.

Lemma index_last_is_Some {A} (l : list A) :
  l ≠ [] → is_Some (Py.index l (-1)).
Proof.
  intros Hne. unfold Py.index. simpl.
  destruct l as [| x l]; [done |].
  destruct (- (-1) <=? _) eqn:Hle.
  - apply lookup_lt_is_Some. simpl length. lia.
  - apply Z.leb_gt in Hle. simpl length in Hle. lia.
Qed.

Lemma merge_similar_notes_ok notes :
  notes ≠ [] → ∃ merged, _merge_similar_notes notes = Ok merged.
Proof.
  intros Hne. unfold _merge_similar_notes.
  destruct (index_last_is_Some (Py.sorted last_update_date notes)) as [m Hm].
  - intros Hnil. apply (f_equal length) in Hnil.
    rewrite sorted_length in Hnil. by destruct notes.
  - rewrite Hm. eauto.
Qed.

Section LoopFacts.
Variable threshold : Q.
Variable sorted_notes : list MemoryNote.

Lemma collect_similar_head i note merged :
  ∃ others, (collect_similar threshold sorted_notes i note merged).1 = note :: others.
Proof.
  unfold collect_similar.
  apply (foldl_invariant (λ acc, ∃ others, acc.1 = note :: others)).
  - by exists [].
  - intros acc j _ [others Hacc]. unfold inner_step.
    case_decide; [eauto |].
    destruct (sorted_notes !! j); [| eauto].
    destruct (are_memories_similar _ _ _); [| eauto].
    simpl. rewrite Hacc. by exists (others ++ [m]).
Qed.

(** The loop run with any [emit] is the run that records the clusters,
    with [emit] applied afterwards. *)
Lemma outer_fold_emit {R} (emit : MemoryNote → list MemoryNote → R) l m rs :
  foldl (outer_step threshold sorted_notes emit)
        (m, map (λ c, emit c.1 c.2) rs) l
  = ((foldl (outer_step threshold sorted_notes pair) (m, rs) l).1,
     map (λ c, emit c.1 c.2)
         (foldl (outer_step threshold sorted_notes pair) (m, rs) l).2).
Proof.
  revert m rs. induction l as [| p l IH]; intros m rs; simpl; [done |].
  unfold outer_step at 2 4 6. simpl.
  case_decide.
  - apply IH.
  - rewrite <- IH. by rewrite map_app.
Qed.

Lemma dedup_loop_emit {R} (emit : MemoryNote → list MemoryNote → R) :
  dedup_loop threshold sorted_notes emit
  = map (λ c, emit c.1 c.2) (dedup_loop threshold sorted_notes pair).
Proof.
  unfold dedup_loop.
  by rewrite (outer_fold_emit emit _ ∅ []).
Qed.

Lemma outer_fold_heads l acc :
  Forall (λ c : MemoryNote * list MemoryNote, ∃ others, c.2 = c.1 :: others) acc.2 →
  Forall (λ c : MemoryNote * list MemoryNote, ∃ others, c.2 = c.1 :: others)
         (foldl (outer_step threshold sorted_notes pair) acc l).2.
Proof.
  intros Hacc. apply (foldl_invariant (λ a, Forall _ a.2)); [done |].
  intros a p _ Ha. unfold outer_step. case_decide; [done |]. simpl.
  apply Forall_app. split; [done |]. constructor; [| constructor].
  simpl. apply collect_similar_head.
Qed.

Lemma outer_fold_length {R} (emit : MemoryNote → list MemoryNote → R) l acc :
  (length (foldl (outer_step threshold sorted_notes emit) acc l).2
   ≤ length acc.2 + length l)%nat.
Proof.
  revert acc. induction l as [| p l IH]; intros acc; simpl; [lia |].
  etrans; [apply IH |]. unfold outer_step. case_decide; simpl; [lia |].
  rewrite length_app. simpl. lia.
Qed.

Lemma dedup_loop_length {R} (emit : MemoryNote → list MemoryNote → R) :
  (length (dedup_loop threshold sorted_notes emit) ≤ length sorted_notes)%nat.
Proof.
  unfold dedup_loop. etrans; [apply outer_fold_length |].
  simpl. by rewrite length_imap.
Qed.

Lemma dedup_loop_heads :
  Forall (λ c : MemoryNote * list MemoryNote, ∃ others, c.2 = c.1 :: others)
         (dedup_loop threshold sorted_notes pair).
Proof. unfold dedup_loop. apply outer_fold_heads. constructor. Qed.

End LoopFacts.

Lemma collect_all_ok {A B} (f : B → result A) (l : list B) :
  Forall (λ b, ∃ a, f b = Ok a) l →
  ∃ out, collect (map f l) = Ok out ∧ Forall2 (λ b a, f b = Ok a) l out.
Proof.
  induction 1 as [| b l [a Ha] _ (out & Hout & Hall)]; simpl.
  - exists []. split; [done | constructor].
  - rewrite Ha, Hout. exists (a :: out). split; [done |]. by constructor.
Qed.

Lemma emit_note_ok note others :
  ∃ merged, emit_note note (note :: others) = Ok merged.
Proof.
  unfold emit_note. destruct (1 <? _); [| eauto].
  by apply merge_similar_notes_ok.
Qed.

(** [deduplicate_memories] never raises: its result is one note per
    cluster, the merge of the cluster or its only member. *)
Lemma deduplicate_memories_clusters notes threshold :
  ∃ out,
    deduplicate_memories notes threshold = Ok out
    ∧ Forall2 (λ c r, emit_note c.1 c.2 = Ok r)
              (dedup_clusters notes threshold) out.
Proof.
  unfold deduplicate_memories, dedup_clusters.
  destruct notes as [| n notes].
  - exists []. split; [done |]. vm_compute. constructor.
  - rewrite dedup_loop_emit.
    apply (collect_all_ok (λ c, emit_note c.1 c.2)).
    eapply Forall_impl; [apply dedup_loop_heads |].
    intros [s c] [others Hc]. simpl in *. subst c. apply emit_note_ok.
Qed.

Lemma deduplicate_memories_length notes threshold out :
  deduplicate_memories notes threshold = Ok out →
  (length out ≤ length notes)%nat.
Proof.
  intros Hout.
  destruct (deduplicate_memories_clusters notes threshold) as (out' & Heq & Hall).
  rewrite Hout in Heq. injection Heq as <-.
  apply Forall2_length in Hall. rewrite <- Hall.
  unfold dedup_clusters. etrans; [apply dedup_loop_length |].
  by rewrite sorted_length.
Qed.

(** ** Consolidation *)

(** C5: [consolidate_session_memories] always returns; afterwards the
    session notes are the empty list, the global notes are the
    deduplicated combined list, [before_count] is the number of global
    plus session notes before the call, [after_count] the length of the
    deduplicated list and [merged_count] their (non-negative) difference. *)
Theorem consolidate_clears_session st :
  ∃ stats st' deduplicated,
    consolidate_session_memories st = Ok (stats, st')
    ∧ deduplicate_memories
        (map from_dict (get_notes (global_memory st))
           ++ map from_dict (get_notes (session_memory st)))
        default_threshold = Ok deduplicated
    ∧ session_memory st' = mkMemory (Some [])
    ∧ get_notes (session_memory st') = []
    ∧ get_notes (global_memory st') = map to_dict deduplicated
    ∧ before_count stats
        = Z.of_nat (length (get_notes (global_memory st)))
          + Z.of_nat (length (get_notes (session_memory st)))
    ∧ after_count stats = Z.of_nat (length deduplicated)
    ∧ merged_count stats = before_count stats - after_count stats
    ∧ session_notes_added stats
        = Z.of_nat (length (get_notes (session_memory st)))
    ∧ 0 ≤ merged_count stats.
Proof.
  unfold consolidate_session_memories.
  destruct (deduplicate_memories_clusters
              (map from_dict (get_notes (global_memory st))
                 ++ map from_dict (get_notes (session_memory st)))
              default_threshold) as (out & Hout & _).
  rewrite Hout. eexists _, _, out.
  split; [done |]. simpl. rewrite !length_map.
  repeat (split; [done |]).
  apply deduplicate_memories_length in Hout.
  rewrite length_app, !length_map in Hout. lia.
Qed.

(** ** Similarity *)

Lemma ratio_bounds overlap union :
  (overlap ≤ union)%nat → (0 <= ratio overlap union <= 1)%Q.
Proof.
  intros Hle. unfold ratio. destruct (0 <? _) eqn:Hpos.
  - apply Z.ltb_lt in Hpos. unfold Qle. simpl.
    rewrite Z2Pos.id by done. lia.
  - split; [apply Qle_refl | discriminate].
Qed.

Lemma jaccard_bounds (a b : gset string) : (0 <= jaccard a b <= 1)%Q.
Proof.
  apply ratio_bounds, subseteq_size.
  intros x Hx. apply elem_of_union. left.
  by apply elem_of_intersection in Hx as [Hx _].
Qed.

Lemma jaccard_sym (a b : gset string) : jaccard a b = jaccard b a.
Proof.
  unfold jaccard.
  by rewrite (comm_L (∩) a b), (comm_L (∪) a b).
Qed.

Lemma keyword_set_empty n : keyword_set n = ∅ ↔ keywords n = [].
Proof.
  unfold keyword_set. split.
  - intros Hempty. destruct (keywords n) as [| k ks]; [done |].
    assert (k ∈ (∅ : gset string)) as Hk by (rewrite <- Hempty; set_solver).
    set_solver.
  - by intros ->.
Qed.

(** The guard on empty keyword sets returns 0 although the text overlap
    of the note with itself is 1, that is, a weighted overlap of 0.4. *)
Lemma calculate_similarity_not_weighted_overlap :
  ¬ (calculate_similarity bare_note bare_note
     == weighted_overlap bare_note bare_note)%Q.
Proof. by vm_compute. Qed.

Lemma calculate_similarity_bounds note1 note2 :
  (0 <= calculate_similarity note1 note2 <= 1)%Q.
Proof.
  unfold calculate_similarity.
  destruct (_ || _); [split; [apply Qle_refl | discriminate] |].
  pose proof (jaccard_bounds (keyword_set note1) (keyword_set note2)).
  pose proof (jaccard_bounds (word_set note1) (word_set note2)). lra.
Qed.

Lemma calculate_similarity_sym note1 note2 :
  calculate_similarity note1 note2 = calculate_similarity note2 note1.
Proof.
  unfold calculate_similarity.
  rewrite (orb_comm (bool_decide (keyword_set note2 = ∅))).
  destruct (_ || _); [done |].
  by rewrite (jaccard_sym (keyword_set note1)), (jaccard_sym (word_set note1)).
Qed.

(** C2: when both notes have at least one keyword, [calculate_similarity]
    is 0.6 times the keyword Jaccard overlap plus 0.4 times the word
    Jaccard overlap; when either note has no keyword it is 0, whatever
    the texts; in both cases it lies in [0, 1] and is symmetric. *)
Theorem calculate_similarity_spec note1 note2 :
  (keywords note1 ≠ [] → keywords note2 ≠ [] →
     calculate_similarity note1 note2 = weighted_overlap note1 note2)
  ∧ (keywords note1 = [] ∨ keywords note2 = [] →
     calculate_similarity note1 note2 = 0%Q)
  ∧ (0 <= calculate_similarity note1 note2 <= 1)%Q
  ∧ calculate_similarity note1 note2 = calculate_similarity note2 note1.
Proof.
  split; [| split; [| split]].
  - intros H1 H2. unfold calculate_similarity, weighted_overlap.
    rewrite !bool_decide_eq_false_2 by by rewrite keyword_set_empty. done.
  - unfold calculate_similarity.
    intros [H | H]; apply keyword_set_empty in H; rewrite H.
    + by rewrite bool_decide_eq_true_2.
    + rewrite (bool_decide_eq_true_2 (∅ = ∅)) by done.
      by rewrite orb_true_r.
  - apply calculate_similarity_bounds.
  - apply calculate_similarity_sym.
Qed.

Lemma calculate_similarity_spec_witness :
  calculate_similarity bar_note_1 bar_note_2
    = weighted_overlap bar_note_1 bar_note_2
  ∧ calculate_similarity bare_note bar_note_1 = 0%Q.
Proof.
  destruct (calculate_similarity_spec bar_note_1 bar_note_2) as (Hboth & _).
  destruct (calculate_similarity_spec bare_note bar_note_1) as (_ & Hnone & _).
  split.
  - apply Hboth; discriminate.
  - apply Hnone. left. reflexivity.
Defined.

(** ** Keyword normalisation *)

Lemma lower_char_idem c : Py.lower_char (Py.lower_char c) = Py.lower_char c.
Proof. by destruct c as [[] [] [] [] [] [] [] []]. Qed.

Lemma isspace_lower_char c : Py.isspace (Py.lower_char c) = Py.isspace c.
Proof. by destruct c as [[] [] [] [] [] [] [] []]. Qed.

Lemma str_chars s : Py.str (Py.chars s) = s.
Proof. apply String.string_of_list_ascii_of_string. Qed.

Lemma lower_str l : Py.lower (Py.str l) = Py.str (map Py.lower_char l).
Proof. induction l as [| c l IH]; simpl; [done | by rewrite IH]. Qed.

Lemma lower_idem s : Py.lower (Py.lower s) = Py.lower s.
Proof.
  induction s as [| c s IH]; simpl; [done |].
  by rewrite lower_char_idem, IH.
Qed.

Lemma drop_space_idem l : Py.drop_space (Py.drop_space l) = Py.drop_space l.
Proof.
  induction l as [| c l IH]; simpl; [done |].
  destruct (Py.isspace c) eqn:Hc; [done |]. simpl. by rewrite Hc.
Qed.

Lemma drop_space_lower l :
  Py.drop_space (map Py.lower_char l) = map Py.lower_char (Py.drop_space l).
Proof.
  induction l as [| c l IH]; simpl; [done |].
  rewrite isspace_lower_char. by destruct (Py.isspace c).
Qed.

Lemma drop_space_snoc t c :
  Py.isspace c = false → ∃ s, Py.drop_space (t ++ [c]) = s ++ [c].
Proof.
  intros Hc. induction t as [| d t [s Hs]]; simpl.
  - rewrite Hc. by exists [].
  - destruct (Py.isspace d); [eauto |]. by exists (d :: t).
Qed.

Lemma drop_space_head l :
  match Py.drop_space l with
  | c :: _ => Py.isspace c = false
  | [] => True
  end.
Proof.
  induction l as [| c l IH]; simpl; [done |].
  destruct (Py.isspace c) eqn:Hc; [done | exact Hc].
Qed.

Lemma strip_chars_no_lead l : Py.drop_space (strip_chars l) = strip_chars l.
Proof.
  unfold strip_chars.
  pose proof (drop_space_head l) as Hhead.
  destruct (Py.drop_space l) as [| c t]; [done |].
  change (rev (c :: t)) with (rev t ++ [c]).
  destruct (drop_space_snoc (rev t) c Hhead) as [s ->].
  rewrite rev_app_distr. simpl. by rewrite Hhead.
Qed.

Lemma strip_chars_idem l : strip_chars (strip_chars l) = strip_chars l.
Proof.
  unfold strip_chars at 1. rewrite strip_chars_no_lead.
  unfold strip_chars. by rewrite rev_involutive, drop_space_idem.
Qed.

Lemma strip_chars_lower l :
  strip_chars (map Py.lower_char l) = map Py.lower_char (strip_chars l).
Proof.
  unfold strip_chars.
  by rewrite drop_space_lower, <- map_rev, drop_space_lower, <- map_rev.
Qed.

Lemma normalised_keyword k :
  Py.truthy (Py.strip k) = true →
  let k' := Py.lower (Py.strip k) in
  k' ≠ EmptyString ∧ Py.strip k' = k' ∧ Py.lower k' = k'.
Proof.
  intros Hk. simpl. split; [| split].
  - destruct (Py.strip k); [discriminate | done].
  - unfold Py.strip at 1 2 3. fold (strip_chars (Py.chars k)).
    rewrite lower_str, chars_str.
    fold (strip_chars (map Py.lower_char (strip_chars (Py.chars k)))).
    by rewrite strip_chars_lower, strip_chars_idem.
  - apply lower_idem.
Qed.

(** Claimed of [add_memory_note]: the keywords of the returned note never
    repeat.  It fails on a repeated input keyword. *)
Lemma add_memory_note_keeps_duplicates :
  ¬ NoDup (keywords (fst (add_memory_note "2024-05-01" (create_default "u")
                            "User prefers bar charts" ["bar"; "Bar "] true))).
Proof.
  vm_compute. intros Hnd. apply NoDup_cons in Hnd as [Hnotin _].
  apply Hnotin. left.
Qed.

(** C3: the keywords of the returned note are the input keywords that are
    not blank, each trimmed and lower-cased, in input order, cut to the
    first five: at most five of them, none empty, none with surrounding
    white space or an upper-case letter.  Repeated keywords are kept. *)
Theorem add_memory_note_keywords today st txt kws to_session :
  let ks := keywords (fst (add_memory_note today st txt kws to_session)) in
  ks = take 5 (map (λ k, Py.lower (Py.strip k))
                   (List.filter (λ k, Py.truthy (Py.strip k)) kws))
  ∧ (length ks ≤ 5)%nat
  ∧ sublist ks (map (λ k, Py.lower (Py.strip k)) kws)
  ∧ Forall (λ k, k ≠ EmptyString ∧ Py.strip k = k ∧ Py.lower k = k) ks.
Proof.
  assert (Hks : keywords (fst (add_memory_note today st txt kws to_session))
                = clean_keywords kws).
  { unfold add_memory_note. by destruct to_session. }
  simpl. rewrite Hks. unfold clean_keywords.
  split; [done |]. split; [rewrite length_take; lia |]. split.
  - etrans; [apply sublist_take |].
    apply (fmap_sublist (λ k, Py.lower (Py.strip k))), filter_sublist.
  - apply Forall_take, Forall_forall. intros k' Hk'.
    apply list_elem_of_In, in_map_iff in Hk' as (k & <- & Hk).
    apply filter_In in Hk as [_ Hk]. by apply normalised_keyword.
Qed.

(** ** Trimming twice *)

Lemma user_indices_shift i conv :
  map fst (List.filter (λ p : nat * Message, is_user (snd p))
             (enumerate_from (S i) conv))
  = map S (map fst (List.filter (λ p : nat * Message, is_user (snd p))
                      (enumerate_from i conv))).
Proof.
  revert i. induction conv as [| m conv IH]; intros i; simpl; [done |].
  destruct (is_user m); simpl; by rewrite IH.
Qed.

Lemma user_indices_cons m conv :
  user_indices (m :: conv)
  = (if is_user m then [0%nat] else []) ++ map S (user_indices conv).
Proof.
  unfold user_indices. simpl.
  destruct (is_user m); simpl; by rewrite user_indices_shift.
Qed.

Lemma user_indices_length conv :
  length (user_indices conv) = length (user_messages conv).
Proof.
  induction conv as [| m conv IH]; [done |].
  rewrite user_indices_cons. unfold user_messages in *. simpl.
  destruct (is_user m); simpl; rewrite length_map; by rewrite IH.
Qed.

(** Cutting at the [k]-th user message keeps all but [k] user messages,
    and the kept part starts with a user message. *)
Lemma user_indices_drop conv k c :
  user_indices conv !! k = Some c →
  length (user_messages (drop c conv)) = (length (user_messages conv) - k)%nat
  ∧ user_indices (drop c conv) !! 0%nat = Some 0%nat.
Proof.
  revert k c. induction conv as [| m conv IH]; intros k c; [done |].
  rewrite user_indices_cons. unfold user_messages in *. simpl.
  destruct (is_user m) eqn:Hm; simpl.
  - destruct k as [| k]; simpl.
    + intros [= <-]. simpl. rewrite Hm. simpl.
      split; [lia |]. rewrite user_indices_cons, Hm. done.
    + rewrite list_lookup_fmap. destruct (user_indices conv !! k) as [c' |] eqn:Hc;
        [| done].
      intros [= <-]. simpl. by apply IH.
  - rewrite list_lookup_fmap. destruct (user_indices conv !! k) as [c' |] eqn:Hc;
      [| done].
    intros [= <-]. simpl. by apply IH.
Qed.

Lemma trim_conversation_no_trim today conv st max_turns preserve :
  should_trim_conversation conv max_turns = false →
  trim_conversation today conv st max_turns preserve = Ok (conv, 0, st).
Proof. intros H. unfold trim_conversation. by rewrite H. Qed.

(** With a user message in front and [max_turns = 0] the cutoff is 0:
    nothing is removed and the state is not touched. *)
Lemma trim_conversation_zero_front today conv st preserve :
  user_indices conv !! 0%nat = Some 0%nat →
  trim_conversation today conv st 0 preserve = Ok (conv, 0, st).
Proof.
  intros Hfront. unfold trim_conversation.
  destruct (negb _); [done |].
  destruct (_ <=? 0); [done |].
  change (Py.index (user_indices conv) (- 0)) with (user_indices conv !! 0%nat).
  rewrite Hfront. simpl. by destruct preserve.
Qed.

(** C7: [max_turns] is documented as the maximum number of user turns
    to keep, and the cut is taken at [user_indices[-(max_turns)]].  With
    [max_turns = 0] that index is [user_indices[0]]: every user turn is
    kept and the once-trimmed transcript still needs trimming.  With
    [max_turns = -1] it is [user_indices[1]]: the first trim of three user
    messages keeps two of them and the second trim removes one more, so
    trimming twice is not trimming once. *)
Theorem second_trim_is_noop_fails :
  let st := create_default "u" in
  let three := [user_says "q1"; user_says "q2"; user_says "q3"] in
  ¬ second_trim_is_noop "2024-05-01" [user_says "q1"] st 0
  ∧ ¬ second_trim_is_noop "2024-05-01" three st (-1)
  ∧ trim_conversation "2024-05-01" five_turns st 0 true = Ok (five_turns, 0, st)
  ∧ length (user_messages five_turns) = 5%nat
  ∧ should_trim_conversation five_turns 0 = true
  ∧ ∃ st1 st2,
      trim_conversation "2024-05-01" three st (-1) true
        = Ok ([user_says "q2"; user_says "q3"], 1, st1)
      ∧ trim_conversation "2024-05-01" [user_says "q2"; user_says "q3"] st1 (-1) true
        = Ok ([user_says "q3"], 1, st2).
Proof.
  cbv zeta. split; [| split].
  - intros (kept & removed & st' & Hfirst & Hshould & Hsecond).
    vm_compute in Hfirst. injection Hfirst as <- _ _.
    vm_compute in Hshould. discriminate.
  - intros (kept & removed & st' & Hfirst & Hshould & Hsecond).
    vm_compute in Hfirst. injection Hfirst as <- _ <-.
    vm_compute in Hsecond. discriminate.
  - split; [by vm_compute |]. split; [by vm_compute |]. split; [by vm_compute |].
    eexists _, _. split; by vm_compute.
Qed.

(** Where the bound is not negative the second trim changes nothing: for
    every [max_turns >= 0], [trim_conversation] returns, and a second call
    on the transcript and state it returned gives that transcript back
    unchanged with 0 removed and the state untouched; for [max_turns >= 1]
    [should_trim_conversation] is false on the once-trimmed transcript. *)
Theorem trim_conversation_idempotent today conv st max_turns preserve preserve' :
  0 ≤ max_turns →
  ∃ kept removed st',
    trim_conversation today conv st max_turns preserve = Ok (kept, removed, st')
    ∧ trim_conversation today kept st' max_turns preserve' = Ok (kept, 0, st')
    ∧ (1 ≤ max_turns → should_trim_conversation kept max_turns = false).
Proof.
  intros Hmax.
  destruct (should_trim_conversation conv max_turns) eqn:Hshould.
  2: { exists conv, 0, st.
       rewrite !trim_conversation_no_trim by done. done. }
  unfold trim_conversation at 1. rewrite Hshould. simpl.
  unfold should_trim_conversation in Hshould. apply Z.ltb_lt in Hshould.
  rewrite <- user_indices_length in Hshould.
  rewrite (proj2 (Z.leb_gt _ _)) by lia.
  destruct (decide (max_turns = 0)) as [-> | Hpos].
  - change (Py.index (user_indices conv) (- 0)) with (user_indices conv !! 0%nat).
    destruct (user_indices conv !! 0%nat) as [c |] eqn:Hc.
    2: { apply lookup_ge_None in Hc. lia. }
    apply user_indices_drop in Hc as [_ Hfront].
    eexists _, _, _. split; [done |].
    split; [by apply trim_conversation_zero_front | lia].
  - unfold Py.index.
    rewrite (proj2 (Z.ltb_lt _ _)) by lia.
    rewrite (proj2 (Z.leb_le _ _)) by lia.
    destruct (user_indices conv !! _) as [c |] eqn:Hc.
    2: { apply lookup_ge_None in Hc. lia. }
    apply user_indices_drop in Hc as [Hcount _].
    assert (Hkept : should_trim_conversation (drop c conv) max_turns = false).
    { unfold should_trim_conversation. apply Z.ltb_ge.
      rewrite Hcount, <- user_indices_length. lia. }
    eexists _, _, _. split; [done |].
    split; [by apply trim_conversation_no_trim | done].
Qed.

Lemma trim_conversation_idempotent_witness :
  ∃ kept removed st',
    trim_conversation "2024-05-01" five_turns (create_default "u") 2 true
      = Ok (kept, removed, st')
    ∧ trim_conversation "2024-05-01" kept st' 2 true = Ok (kept, 0, st')
    ∧ should_trim_conversation kept 2 = false.
Proof.
  destruct (trim_conversation_idempotent "2024-05-01" five_turns
              (create_default "u") 2 true true)
    as (kept & removed & st' & Hfirst & Hsecond & Hshould); [lia |].
  exists kept, removed, st'.
  split; [exact Hfirst |]. split; [exact Hsecond |]. apply Hshould. lia.
Defined.

(** ** Clusters of the deduplication pass *)

Lemma insert_by_perm {A} (key : A → string) x (l : list A) :
  Py.insert_by key x l ≡ₚ x :: l.
Proof.
  induction l as [| y l IH]; simpl; [done |].
  destruct (String.leb _ _); [done |].
  rewrite IH. apply Permutation_swap.
Qed.

Lemma insert_by_sorted {A} (key : A → string) x (l : list A) :
  Sorted (λ a b, String.leb (key a) (key b) = true) l →
  Sorted (λ a b, String.leb (key a) (key b) = true) (Py.insert_by key x l).
Proof.
  induction 1 as [| y l Hl IH Hhd]; simpl.
  - by repeat constructor.
  - destruct (String.leb (key x) (key y)) eqn:Hxy.
    + constructor; [by constructor | by constructor].
    + constructor; [done |].
      destruct (String.leb_total (key x) (key y)) as [Hle | Hle]; [congruence |].
      destruct Hhd as [| z l Hyz]; simpl; [by constructor |].
      destruct (String.leb (key x) (key z)); by constructor.
Qed.

(** [Py.sorted] orders by key (and is a permutation, below). *)
Lemma sorted_ordered {A} (key : A → string) (l : list A) :
  Sorted (λ a b, String.leb (key a) (key b) = true) (Py.sorted key l).
Proof.
  induction l as [| x l IH]; simpl; [constructor |].
  by apply insert_by_sorted.
Qed.

Lemma sorted_perm {A} (key : A → string) (l : list A) :
  Py.sorted key l ≡ₚ l.
Proof.
  induction l as [| x l IH]; simpl; [done |].
  by rewrite insert_by_perm, IH.
Qed.

Lemma not_similar_lt note1 note2 threshold :
  are_memories_similar note1 note2 threshold = false ↔
  (calculate_similarity note1 note2 < threshold)%Q.
Proof.
  unfold are_memories_similar. split.
  - intros Hfalse. apply Qnot_le_lt. intros Hle.
    apply Qle_bool_iff in Hle. congruence.
  - intros Hlt. destruct (Qle_bool _ _) eqn:Hle; [| done].
    apply Qle_bool_iff in Hle. by apply Qlt_not_le in Hlt.
Qed.

Lemma string_compare_refl s : String.compare s s = Eq.
Proof.
  pose proof (String.compare_antisym s s) as H.
  destruct (String.compare s s); simpl in H; congruence.
Qed.

Lemma string_leb_lt a b :
  String.leb a b = true ↔ OrderedTypeEx.String_as_OT.lt a b ∨ a = b.
Proof.
  unfold String.leb. destruct (String.compare a b) eqn:Hcmp.
  - apply String.compare_eq_iff in Hcmp. tauto.
  - apply OrderedTypeEx.String_as_OT.cmp_lt in Hcmp. tauto.
  - split; [discriminate |]. intros [Hlt | ->].
    + apply OrderedTypeEx.String_as_OT.cmp_lt in Hlt.
      unfold OrderedTypeEx.String_as_OT.cmp in Hlt. congruence.
    + rewrite string_compare_refl in Hcmp. discriminate.
Qed.

Lemma string_leb_refl a : String.leb a a = true.
Proof. apply string_leb_lt. by right. Qed.

Lemma string_leb_trans a b c :
  String.leb a b = true → String.leb b c = true → String.leb a c = true.
Proof.
  rewrite !string_leb_lt. intros [Hab | ->] [Hbc | ->]; try tauto.
  left. by eapply OrderedTypeEx.String_as_OT.lt_trans.
Qed.

Lemma sorted_strongly {A} (key : A → string) (l : list A) :
  StronglySorted (λ a b, String.leb (key a) (key b) = true) (Py.sorted key l).
Proof.
  apply Sorted_StronglySorted; [| apply sorted_ordered].
  intros a b c. apply string_leb_trans.
Qed.

Lemma strongly_sorted_lookup {A} (R : relation A) (l : list A) i j a b :
  (∀ x, R x x) → StronglySorted R l → (i ≤ j)%nat →
  l !! i = Some a → l !! j = Some b → R a b.
Proof.
  intros Hrefl Hsorted. revert i j.
  induction Hsorted as [| y l Hl IH Hall]; intros i j Hij Hi Hj; [done |].
  destruct i as [| i]; simpl in Hi.
  - injection Hi as ->. destruct j as [| j]; simpl in Hj.
    + injection Hj as ->. apply Hrefl.
    + eapply Forall_forall in Hall; [exact Hall |].
      by eapply list_elem_of_lookup_2.
  - destruct j as [| j]; [lia |]. simpl in Hj.
    apply (IH i j); [lia | done | done].
Qed.

Section Clusters.
Variable threshold : Q.
Variable sorted_notes : list MemoryNote.

Local Abbreviation similar a b := (are_memories_similar a b threshold).
Local Abbreviation inv := (outer_inv threshold sorted_notes).

(** The inner loop, after the indices [S i .. S i + t - 1]: no index is
    unmarked, every examined index left unmarked holds a note that is not
    similar to the seed, and the collected notes are similar to it. *)
Lemma inner_fold_spec i note merged t :
  let r := foldl (inner_step threshold sorted_notes note) ([note], merged)
                 (seq (S i) t) in
  merged ⊆ r.2
  ∧ (∀ j nj, (S i ≤ j < S i + t)%nat → sorted_notes !! j = Some nj →
       j ∉ r.2 → similar note nj = false)
  ∧ ∃ others, r.1 = note :: others
      ∧ Forall (λ m, m ∈ sorted_notes ∧ similar note m = true) others.
Proof.
  cbv zeta. induction t as [| t IH].
  - simpl. split; [done |]. split; [intros; lia |]. exists []. by split.
  - rewrite seq_S, foldl_app.
    destruct IH as (Hsub & Hrest & others & Hhead & Hsim).
    set (r := foldl _ _ (seq (S i) t)) in *.
    cbn [foldl]. unfold inner_step.
    destruct (decide ((S i + t)%nat ∈ r.2)) as [Hin | Hnotin].
    { split; [done |]. split; [| eauto].
      intros j nj Hj Hlook Hj'.
      destruct (decide (j = (S i + t)%nat)) as [-> | Hne]; [done |].
      apply (Hrest j nj); [lia | done | done]. }
    destruct (sorted_notes !! (S i + t)%nat) as [n0 |] eqn:Hn0.
    2: { split; [done |]. split; [| eauto].
         intros j nj Hj Hlook Hj'.
         destruct (decide (j = (S i + t)%nat)) as [-> | Hne]; [congruence |].
         apply (Hrest j nj); [lia | done | done]. }
    destruct (similar note n0) eqn:Hs0.
    + cbn [fst snd]. split; [set_solver |]. split.
      * intros j nj Hj Hlook Hj'.
        destruct (decide (j = (S i + t)%nat)) as [-> | Hne]; [set_solver |].
        apply (Hrest j nj); [lia | done | set_solver].
      * exists (others ++ [n0]). rewrite Hhead. split; [done |].
        apply Forall_app. split; [done |]. constructor; [| done].
        split; [| done]. by eapply list_elem_of_lookup_2.
    + split; [done |]. split; [| eauto].
      intros j nj Hj Hlook Hj'.
      destruct (decide (j = (S i + t)%nat)) as [-> | Hne]; [congruence |].
      apply (Hrest j nj); [lia | done | done].
Qed.

Lemma collect_similar_spec i note merged :
  let r := collect_similar threshold sorted_notes i note merged in
  merged ⊆ r.2
  ∧ (∀ j nj, (i < j)%nat → sorted_notes !! j = Some nj →
       j ∉ r.2 → similar note nj = false)
  ∧ ∃ others, r.1 = note :: others
      ∧ Forall (λ m, m ∈ sorted_notes ∧ similar note m = true) others.
Proof.
  unfold collect_similar.
  destruct (inner_fold_spec i note merged (length sorted_notes - S i))
    as (Hsub & Hrest & Hothers).
  split; [done |]. split; [| done].
  intros j nj Hj Hlook. apply Hrest; [| done].
  apply lookup_lt_Some in Hlook. lia.
Qed.

Lemma outer_step_inv i note acc :
  sorted_notes !! i = Some note →
  inv i acc →
  inv (S i) (outer_step threshold sorted_notes pair acc (i, note)).
Proof.
  intros Hnote (Hopen & Hpair & Hok). unfold outer_step. simpl.
  destruct (decide (i ∈ acc.1)) as [Hin | Hnotin].
  { split; [| done]. intros c j nj Hc Hj. apply Hopen; [done | lia]. }
  destruct (collect_similar_spec i note acc.1) as (Hsub & Hrest & Hothers).
  set (r := collect_similar _ _ _ _ _) in *.
  split; [| split]; simpl.
  - intros c j nj Hc Hj Hlook Hj'.
    apply elem_of_app in Hc as [Hc | Hc].
    + apply (Hopen c j nj); [done | lia | done | set_solver].
    + apply list_elem_of_singleton in Hc as ->. simpl.
      apply (Hrest j nj); [lia | done | done].
  - intros a b ca cb Hab Ha Hb.
    apply lookup_snoc_Some in Hb as [[Hb1 Hb2] | [-> <-]].
    + apply lookup_snoc_Some in Ha as [[Ha1 Ha2] | [-> <-]]; [| lia].
      by apply (Hpair a b).
    + apply lookup_snoc_Some in Ha as [[Ha1 Ha2] | [-> <-]]; [| lia].
      simpl. apply (Hopen ca i note); [| lia | done | done].
      by eapply list_elem_of_lookup_2.
  - apply Forall_app. split; [done |]. constructor; [| done].
    split; simpl; [by eapply list_elem_of_lookup_2 | done].
Qed.

Lemma outer_fold_inv xs i acc :
  drop i sorted_notes = xs →
  inv i acc →
  inv (i + length xs)
    (foldl (outer_step threshold sorted_notes pair) acc
           (imap (λ off x, ((i + off)%nat, x)) xs)).
Proof.
  revert i acc. induction xs as [| x xs IH]; intros i acc Hdrop Hinv.
  - simpl. by rewrite Nat.add_0_r.
  - rewrite imap_cons. simpl. rewrite Nat.add_0_r.
    assert (Hx : sorted_notes !! i = Some x).
    { rewrite <- (Nat.add_0_r i), <- lookup_drop, Hdrop. done. }
    replace (i + S (length xs))%nat with (S i + length xs)%nat by lia.
    rewrite (imap_ext _ (λ off x, ((S i + off)%nat, x))).
    2: { intros off y _. simpl. f_equal. lia. }
    apply IH.
    + replace (S i) with (i + 1)%nat by lia.
      by rewrite <- drop_drop, Hdrop.
    + by apply outer_step_inv.
Qed.

Lemma dedup_loop_inv :
  inv (length sorted_notes) (∅, dedup_loop threshold sorted_notes pair).
Proof.
  pose proof (outer_fold_inv sorted_notes 0 (∅, [])) as Hfold.
  simpl in Hfold. unfold dedup_loop.
  destruct Hfold as (Hopen & Hpair & Hok); [done | |].
  { split; [| split]; simpl; [| | constructor].
    - intros c j nj Hc. by apply elem_of_nil in Hc.
    - intros a b ca cb _ Ha. done. }
  split; [| split]; simpl; [| done | done].
  intros c j nj _ Hj Hlook. apply lookup_lt_Some in Hlook. lia.
Qed.

Lemma pick_from_cons k x l (S : gset nat) :
  pick_from k (x :: l) S
  = (if decide (k ∈ S) then [x] else []) ++ pick_from (Datatypes.S k) l S.
Proof.
  unfold pick_from. simpl. rewrite filter_cons. simpl.
  by destruct (decide (k ∈ S)).
Qed.

Lemma pick_from_union k l (S1 S2 : gset nat) :
  S1 ## S2 → pick_from k l (S1 ∪ S2) ≡ₚ pick_from k l S1 ++ pick_from k l S2.
Proof.
  intros Hdisj. revert k.
  induction l as [| x l IH]; intros k; [done |].
  rewrite !pick_from_cons, IH.
  destruct (decide (k ∈ S1)) as [H1 | H1]; destruct (decide (k ∈ S2)) as [H2 | H2].
  - set_solver.
  - rewrite decide_True by set_solver. done.
  - rewrite decide_True by set_solver. simpl. apply Permutation_middle.
  - rewrite decide_False by set_solver. done.
Qed.

Lemma pick_from_none k l (S : gset nat) :
  (∀ j, j ∈ S → (k ≤ j < k + length l)%nat → False) → pick_from k l S = [].
Proof.
  revert k. induction l as [| x l IH]; intros k Hout; [done |].
  rewrite pick_from_cons, decide_False.
  - apply IH. intros j Hj Hrange. apply (Hout j Hj). simpl. lia.
  - intros Hk. apply (Hout k Hk). simpl. lia.
Qed.

Lemma pick_from_all k l (S : gset nat) :
  (∀ j, (k ≤ j < k + length l)%nat → j ∈ S) → pick_from k l S = l.
Proof.
  revert k. induction l as [| x l IH]; intros k Hall; [done |].
  rewrite pick_from_cons, decide_True by (apply Hall; simpl; lia).
  simpl. f_equal. apply IH. intros j Hj. apply Hall. simpl. lia.
Qed.

Lemma pick_from_singleton k l i x :
  l !! i = Some x → pick_from k l {[(k + i)%nat]} = [x].
Proof.
  revert k i. induction l as [| y l IH]; intros k i Hx; [done |].
  rewrite pick_from_cons. destruct i as [| i]; simpl in Hx.
  - injection Hx as ->. rewrite Nat.add_0_r.
    rewrite decide_True by set_solver.
    rewrite pick_from_none; [done |].
    intros j Hj Hrange. apply elem_of_singleton in Hj. lia.
  - rewrite decide_False by (rewrite elem_of_singleton; lia).
    replace (k + S i)%nat with (S k + i)%nat by lia. by apply IH.
Qed.

Abbreviation pick S := (pick_from 0 sorted_notes S).

Lemma pick_singleton i x : sorted_notes !! i = Some x → pick {[i]} = [x].
Proof. apply (pick_from_singleton 0). Qed.

(** The inner loop marks fresh indices beyond [i] and collects exactly
    the notes at these indices. *)
Lemma inner_fold_perm i note merged t :
  let r := foldl (inner_step threshold sorted_notes note) ([note], merged)
                 (seq (S i) t) in
  ∃ fresh : gset nat,
    r.2 = merged ∪ fresh
    ∧ fresh ## merged
    ∧ (∀ j, j ∈ fresh → (i < j)%nat)
    ∧ r.1 ≡ₚ note :: pick fresh.
Proof.
  cbv zeta. induction t as [| t IH].
  - simpl. exists ∅. split; [set_solver |]. split; [set_solver |].
    split; [set_solver |]. by rewrite pick_from_none by set_solver.
  - rewrite seq_S, foldl_app.
    destruct IH as (fresh & Hr2 & Hdisj & Hgt & Hperm).
    set (r := foldl _ _ (seq (S i) t)) in *.
    cbn [foldl]. unfold inner_step.
    destruct (decide ((S i + t)%nat ∈ r.2)) as [Hin | Hnotin]; [by exists fresh |].
    destruct (sorted_notes !! (S i + t)%nat) as [n0 |] eqn:Hn0; [| by exists fresh].
    destruct (similar note n0); [| by exists fresh].
    cbn [fst snd]. exists (fresh ∪ {[(S i + t)%nat]}).
    split; [rewrite Hr2; set_solver |].
    split; [set_solver |].
    split.
    { intros j Hj. apply elem_of_union in Hj as [Hj | Hj]; [by apply Hgt |].
      apply elem_of_singleton in Hj. lia. }
    rewrite pick_from_union by set_solver.
    rewrite (pick_singleton _ _ Hn0).
    by rewrite Hperm.
Qed.

Lemma set_seq_marked i (merged : gset nat) :
  i ∈ merged → set_seq 0 (S i) ∪ merged = set_seq 0 i ∪ merged.
Proof.
  intros Hin. apply set_eq. intros j.
  rewrite !elem_of_union, !elem_of_set_seq.
  split; [| intros [? | ?]; [left; lia | by right]].
  intros [? | ?]; [| by right].
  destruct (decide (j = i)) as [-> | ?]; [by right | left; lia].
Qed.

Lemma set_seq_split i (merged fresh : gset nat) :
  set_seq 0 (S i) ∪ (merged ∪ fresh)
  = ((set_seq 0 i ∪ merged) ∪ {[i]}) ∪ fresh.
Proof.
  apply set_eq. intros j.
  rewrite !elem_of_union, !elem_of_set_seq, elem_of_singleton.
  split.
  - intros [? | [? | ?]]; [| tauto | tauto].
    destruct (decide (j = i)) as [-> | ?]; [tauto | left; left; left; lia].
  - intros [[[? | ?] | ?] | ?]; [left; lia | tauto | left; lia | tauto].
Qed.

Lemma outer_step_perm i note acc :
  sorted_notes !! i = Some note →
  concat acc.2.*2 ≡ₚ pick (set_seq 0 i ∪ acc.1) →
  let acc' := outer_step threshold sorted_notes pair acc (i, note) in
  concat acc'.2.*2 ≡ₚ pick (set_seq 0 (S i) ∪ acc'.1).
Proof.
  intros Hnote Hperm. unfold outer_step. cbn [fst snd].
  destruct (decide (i ∈ acc.1)) as [Hin | Hnotin].
  { by rewrite set_seq_marked. }
  unfold collect_similar.
  destruct (inner_fold_perm i note acc.1 (length sorted_notes - S i))
    as (fresh & Hr2 & Hdisj & Hgt & Hsim).
  set (r := foldl _ _ _) in *. cbn [fst snd].
  rewrite fmap_app, concat_app. cbn [fmap list_fmap concat snd].
  rewrite app_nil_r, Hperm, Hsim, Hr2, set_seq_split.
  assert (Hfresh : ∀ j, j ∈ (set_seq 0 i : gset nat) → j ∉ fresh).
  { intros j Hj Hj'. apply elem_of_set_seq in Hj. apply Hgt in Hj'. lia. }
  rewrite (pick_from_union 0 sorted_notes (_ ∪ {[i]}) fresh).
  2: { intros j Hj Hj'.
       apply elem_of_union in Hj as [Hj | Hj].
       - apply elem_of_union in Hj as [Hj | Hj]; [by apply (Hfresh j) |].
         by apply (Hdisj j).
       - apply elem_of_singleton in Hj. apply Hgt in Hj'. lia. }
  rewrite (pick_from_union 0 sorted_notes _ {[i]}).
  2: { intros j Hj Hj'. apply elem_of_singleton in Hj'. subst j.
       apply elem_of_union in Hj as [Hj | Hj]; [| done].
       apply elem_of_set_seq in Hj. lia. }
  rewrite (pick_singleton _ _ Hnote).
  by rewrite <- app_assoc.
Qed.

Lemma outer_fold_perm xs i acc :
  drop i sorted_notes = xs →
  concat acc.2.*2 ≡ₚ pick (set_seq 0 i ∪ acc.1) →
  let acc' := foldl (outer_step threshold sorted_notes pair) acc
                    (imap (λ off x, ((i + off)%nat, x)) xs) in
  concat acc'.2.*2 ≡ₚ pick (set_seq 0 (i + length xs) ∪ acc'.1).
Proof.
  revert i acc. induction xs as [| x xs IH]; intros i acc Hdrop Hperm.
  - simpl. by rewrite Nat.add_0_r.
  - rewrite imap_cons. simpl. rewrite Nat.add_0_r.
    assert (Hx : sorted_notes !! i = Some x).
    { rewrite <- (Nat.add_0_r i), <- lookup_drop, Hdrop. done. }
    replace (i + S (length xs))%nat with (S i + length xs)%nat by lia.
    rewrite (imap_ext _ (λ off x, ((S i + off)%nat, x))).
    2: { intros off y _. simpl. f_equal. lia. }
    apply IH.
    + replace (S i) with (i + 1)%nat by lia.
      by rewrite <- drop_drop, Hdrop.
    + by apply outer_step_perm.
Qed.

(** The clusters partition the notes of the pass. *)
Lemma dedup_loop_perm :
  concat (dedup_loop threshold sorted_notes pair).*2 ≡ₚ sorted_notes.
Proof.
  pose proof (outer_fold_perm sorted_notes 0 (∅, [])) as Hfold.
  simpl in Hfold. unfold dedup_loop. rewrite Hfold.
  - apply reflexive_eq, pick_from_all. intros j Hj.
    apply elem_of_union. left. apply elem_of_set_seq. lia.
  - done.
  - by rewrite pick_from_none by set_solver.
Qed.

(** The inner loop collects notes from positions after the seed's. *)
Lemma inner_fold_positions i note merged t :
  sorted_notes !! i = Some note →
  Forall (λ m, ∃ j, (i ≤ j)%nat ∧ sorted_notes !! j = Some m)
    (foldl (inner_step threshold sorted_notes note) ([note], merged)
           (seq (S i) t)).1.
Proof.
  intros Hnote. induction t as [| t IH].
  - simpl. constructor; [| constructor]. by exists i.
  - rewrite seq_S, foldl_app.
    set (r := foldl _ _ (seq (S i) t)) in *.
    cbn [foldl]. unfold inner_step.
    destruct (decide ((S i + t)%nat ∈ r.2)); [done |].
    destruct (sorted_notes !! (S i + t)%nat) as [n0 |] eqn:Hn0; [| done].
    destruct (similar note n0); [| done].
    cbn [fst]. apply Forall_app. split; [done |].
    constructor; [| constructor]. exists (S i + t)%nat. split; [lia | done].
Qed.

Lemma outer_step_positions i note acc :
  sorted_notes !! i = Some note →
  Forall (seed_first sorted_notes) acc.2 →
  Forall (seed_first sorted_notes)
    (outer_step threshold sorted_notes pair acc (i, note)).2.
Proof.
  intros Hnote Hacc. unfold outer_step. cbn [fst snd].
  destruct (decide (i ∈ acc.1)); [done |]. cbn [snd].
  apply Forall_app. split; [done |]. constructor; [| constructor].
  exists i. split; [done |]. by apply inner_fold_positions.
Qed.

Lemma outer_fold_positions xs i acc :
  drop i sorted_notes = xs →
  Forall (seed_first sorted_notes) acc.2 →
  Forall (seed_first sorted_notes)
    (foldl (outer_step threshold sorted_notes pair) acc
           (imap (λ off x, ((i + off)%nat, x)) xs)).2.
Proof.
  revert i acc. induction xs as [| x xs IH]; intros i acc Hdrop Hacc; [done |].
  rewrite imap_cons. simpl. rewrite Nat.add_0_r.
  assert (Hx : sorted_notes !! i = Some x).
  { rewrite <- (Nat.add_0_r i), <- lookup_drop, Hdrop. done. }
  rewrite (imap_ext _ (λ off x, ((S i + off)%nat, x))).
  2: { intros off y _. simpl. f_equal. lia. }
  apply IH.
  - replace (S i) with (i + 1)%nat by lia.
    by rewrite <- drop_drop, Hdrop.
  - by apply outer_step_positions.
Qed.

(** In every cluster the seed comes from the earliest position. *)
Lemma dedup_loop_positions :
  Forall (seed_first sorted_notes) (dedup_loop threshold sorted_notes pair).
Proof.
  unfold dedup_loop. by apply (outer_fold_positions sorted_notes 0 (∅, [])).
Qed.

End Clusters.

(** ** Consolidation and the similarity threshold *)

(** The oldest note absorbs the newest one, the merged note carries both
    keywords, and the middle note, never compared with it, stays: the two
    surviving notes have similarity 0.7. *)
Lemma consolidate_leaves_similar_pair :
  ∃ stats st',
    consolidate_session_memories three_note_state = Ok (stats, st')
    ∧ ¬ pairwise_below default_threshold
          (map from_dict (get_notes (global_memory st'))).
Proof.
  eexists _, _. split; [by vm_compute |].
  intros Hbelow.
  specialize (Hbelow 0%nat 1%nat note_new note_mid).
  assert (Hlt : (calculate_similarity note_new note_mid < default_threshold)%Q).
  { apply Hbelow; [lia | by vm_compute | by vm_compute]. }
  vm_compute in Hlt. discriminate.
Qed.

(** C1: after [consolidate_session_memories] returns, the global notes
    are, cluster by cluster, the merge of each cluster formed over the
    date-sorted combined notes; the clusters partition the combined
    notes, the seed of a cluster is an oldest member of it (no member
    has an earlier date), the seeds of any two distinct clusters are below
    the threshold, and every other member of a cluster is at or above the
    threshold with the seed of its cluster.  (Nothing is said of the
    similarity between the merged notes themselves.) *)
Theorem consolidate_seeds_below_threshold st :
  let all_notes :=
    map from_dict (get_notes (global_memory st))
      ++ map from_dict (get_notes (session_memory st)) in
  let clusters := dedup_clusters all_notes default_threshold in
  ∃ stats st',
    consolidate_session_memories st = Ok (stats, st')
    ∧ Forall2 (λ c d, emit_note c.1 c.2 = Ok (from_dict d))
              clusters (get_notes (global_memory st'))
    ∧ concat clusters.*2 ≡ₚ all_notes
    ∧ (∀ i j ci cj, i ≠ j → clusters !! i = Some ci → clusters !! j = Some cj →
         (calculate_similarity ci.1 cj.1 < default_threshold)%Q)
    ∧ Forall (λ c,
         c.1 ∈ all_notes
         ∧ ∃ others, c.2 = c.1 :: others
             ∧ Forall (λ m, m ∈ all_notes
                            ∧ (default_threshold <= calculate_similarity c.1 m)%Q)
                      others)
        clusters
    ∧ Forall (λ c,
         Forall (λ m, String.leb (last_update_date c.1) (last_update_date m)
                      = true) c.2)
        clusters.
Proof.
  intros all_notes clusters.
  destruct (deduplicate_memories_clusters all_notes default_threshold)
    as (out & Hout & Hall).
  unfold consolidate_session_memories. fold all_notes. rewrite Hout.
  eexists _, _. split; [done |]. simpl.
  destruct (dedup_loop_inv default_threshold
              (Py.sorted last_update_date all_notes)) as (_ & Hpair & Hok).
  simpl in Hpair, Hok. fold (dedup_clusters all_notes default_threshold) in *.
  fold clusters in Hpair, Hok, Hall.
  split; [| split; [| split; [| split]]].
  - apply Forall2_fmap_r. eapply Forall2_impl; [exact Hall |].
    intros c r Hr. by destruct r.
  - unfold clusters, dedup_clusters.
    by rewrite dedup_loop_perm, sorted_perm.
  - intros i j ci cj Hij Hi Hj.
    destruct (decide (i < j)%nat) as [Hlt | Hge].
    + apply not_similar_lt. by apply (Hpair i j).
    + rewrite calculate_similarity_sym.
      apply not_similar_lt. apply (Hpair j i); [lia | done | done].
  - eapply Forall_impl; [exact Hok |].
    intros c (Hseed & others & Hc & Hothers).
    split; [by rewrite <- (sorted_perm last_update_date all_notes) |].
    exists others. split; [done |].
    eapply Forall_impl; [exact Hothers |].
    intros m [Hm Hsim]. split.
    + by rewrite <- (sorted_perm last_update_date all_notes).
    + by apply Qle_bool_iff.
  - eapply Forall_impl;
      [exact (dedup_loop_positions default_threshold
                (Py.sorted last_update_date all_notes)) |].
    intros c (i & Hseed & Hmembers).
    eapply Forall_impl; [exact Hmembers |].
    intros m (j & Hij & Hm).
    apply (strongly_sorted_lookup
             (λ a b, String.leb (last_update_date a) (last_update_date b) = true)
             (Py.sorted last_update_date all_notes) i j); try done.
    + intros x. apply string_leb_refl.
    + apply sorted_strongly.
Qed.

Lemma consolidate_seeds_below_threshold_witness :
  (calculate_similarity note_old note_mid < default_threshold)%Q.
Proof.
  destruct (consolidate_seeds_below_threshold three_note_state)
    as (stats & st' & _ & _ & _ & Hpair & _).
  apply (Hpair 0%nat 1%nat (note_old, [note_old; note_new])
               (note_mid, [note_mid])).
  - lia.
  - by vm_compute.
  - by vm_compute.
Defined.

(** ** Scenarios of the specification *)

(** Three similar notes saved to the session and consolidated leave one
    merged note with the keywords [chart_type], [bar]. *)
Example consolidate_bar_chart_session :
  ∃ stats st',
    consolidate_session_memories bar_chart_session = Ok (stats, st')
    ∧ before_count stats = 3 ∧ after_count stats = 1 ∧ merged_count stats = 2
    ∧ map d_keywords (get_notes (global_memory st')) = [["chart_type"; "bar"]]
    ∧ get_notes (session_memory st') = [].
Proof. eexists _, _. split; [by vm_compute |]. by vm_compute. Qed.

(** Fifteen user turns with [max_turns = 10]: trimming is needed, ten
    user turns remain, ten messages are removed and the reinjection flag
    is set. *)
Example trim_fifteen_turns :
  should_trim_conversation fifteen_turns 10 = true
  ∧ ∃ kept st',
      trim_conversation "2024-05-01" fifteen_turns (create_default "u") 10 true
        = Ok (kept, 10, st')
      ∧ length (user_messages kept) = 10%nat
      ∧ inject_session_memories_next_turn st' = true
      ∧ length (get_notes (session_memory st')) = 1%nat.
Proof.
  split; [by vm_compute |].
  eexists _, _. split; [by vm_compute |]. by vm_compute.
Qed.

(** ** Searching the memories *)

Lemma filter_all_true {A} (f : A → bool) (l : list A) :
  (∀ x, f x = true) → List.filter f l = l.
Proof.
  intros Hf. induction l as [| x l IH]; simpl; [done |].
  by rewrite Hf, IH.
Qed.

(** X1: a search without keywords ([None] or an empty list) returns every
    note of the selected scopes: the global notes in storage order, then
    the session notes. *)
Theorem search_memories_no_keywords st kws include_session include_global :
  default [] kws = [] →
  search_memories st kws include_session include_global
  = (if include_global then map from_dict (get_notes (global_memory st)) else [])
    ++ (if include_session then map from_dict (get_notes (session_memory st))
        else []).
Proof.
  intros Hkws. unfold search_memories, get_notes. rewrite Hkws. simpl.
  f_equal.
  - destruct include_global; [| done].
    destruct (notes (global_memory st)); [| done].
    by apply filter_all_true.
  - destruct include_session; [| done].
    destruct (notes (session_memory st)); [| done].
    by apply filter_all_true.
Qed.

Lemma search_memories_no_keywords_witness :
  search_memories bar_chart_session None true true
  = map from_dict (get_notes (session_memory bar_chart_session)).
Proof.
  rewrite (search_memories_no_keywords bar_chart_session None true true);
    reflexivity.
Defined.

(** X2: the result of a search is drawn, in order, from the global notes
    followed by the session notes, and under a non-empty query every
    returned note carries a keyword that is the trimmed, lower-cased form
    of a query keyword. *)
Theorem search_memories_sound st query include_session include_global :
  sublist (search_memories st (Some query) include_session include_global)
          (map from_dict (get_notes (global_memory st))
           ++ map from_dict (get_notes (session_memory st)))
  ∧ (query ≠ [] →
     ∀ note, note ∈ search_memories st (Some query) include_session include_global →
       ∃ k, k ∈ query ∧ Py.lower (Py.strip k) ∈ keywords note).
Proof.
  unfold search_memories, get_notes. simpl.
  set (sk := list_to_set (map (λ k, Py.lower (Py.strip k)) query) : gset string).
  set (hit := λ note : MemoryNote,
         bool_decide (sk = ∅)
         || existsb (λ kw, bool_decide (kw ∈ sk)) (keywords note)).
  assert (Hsub : ∀ (b : bool) m,
             sublist (if b then match notes m with
                                | Some l => List.filter hit (map from_dict l)
                                | None => []
                                end else [])
                     (map from_dict (default [] (notes m)))).
  { intros b m. destruct b; [| apply sublist_nil_l].
    destruct (notes m); [apply filter_sublist | apply sublist_nil_l]. }
  split; [by apply sublist_app |].
  intros Hq note Hin.
  assert (Hhit : hit note = true).
  { apply elem_of_app in Hin as [Hin | Hin].
    - destruct include_global; [| by apply elem_of_nil in Hin].
      destruct (notes (global_memory st)); [| by apply elem_of_nil in Hin].
      apply list_elem_of_In, filter_In in Hin. tauto.
    - destruct include_session; [| by apply elem_of_nil in Hin].
      destruct (notes (session_memory st)); [| by apply elem_of_nil in Hin].
      apply list_elem_of_In, filter_In in Hin. tauto. }
  unfold hit in Hhit. apply orb_true_iff in Hhit as [Hempty | Hex].
  - apply bool_decide_eq_true in Hempty.
    destruct query as [| k query]; [done |].
    assert (Py.lower (Py.strip k) ∈ sk) as Hk by (unfold sk; set_solver).
    rewrite Hempty in Hk. set_solver.
  - apply existsb_exists in Hex as (kw & Hkw & Hin').
    apply bool_decide_eq_true in Hin'. unfold sk in Hin'.
    apply elem_of_list_to_set, list_elem_of_In, in_map_iff in Hin'
      as (k & <- & Hk).
    exists k. split; [by apply list_elem_of_In | by apply list_elem_of_In].
Qed.

Lemma search_memories_sound_witness :
  ∃ k, k ∈ [" Bar "] ∧ Py.lower (Py.strip k) ∈ keywords bar_note_1.
Proof.
  destruct (search_memories_sound bar_chart_session [" Bar "] true true)
    as [_ Hsound].
  apply Hsound; [discriminate |].
  vm_compute. left.
Defined.

(** X3: a note just added is found again: searching both scopes with any
    query that holds a keyword whose trimmed, lower-cased form is one of
    the note's keywords returns the note. *)
Theorem add_memory_note_then_search today st txt kws to_session query k :
  let note := fst (add_memory_note today st txt kws to_session) in
  let st' := snd (add_memory_note today st txt kws to_session) in
  k ∈ query →
  Py.lower (Py.strip k) ∈ keywords note →
  note ∈ search_memories st' (Some query) true true.
Proof.
  intros note st' Hk Hkw. unfold search_memories. simpl.
  set (sk := list_to_set (map (λ k, Py.lower (Py.strip k)) query) : gset string).
  set (hit := λ note : MemoryNote,
         bool_decide (sk = ∅)
         || existsb (λ kw, bool_decide (kw ∈ sk)) (keywords note)).
  assert (Hhit : hit note = true).
  { unfold hit. apply orb_true_iff. right. apply existsb_exists.
    exists (Py.lower (Py.strip k)). split; [by apply list_elem_of_In |].
    apply bool_decide_eq_true. unfold sk.
    apply elem_of_list_to_set, list_elem_of_In, in_map_iff.
    exists k. split; [done | by apply list_elem_of_In]. }
  assert (Hin : ∀ l, note ∈ List.filter hit (map from_dict (l ++ [to_dict note]))).
  { intros l. apply list_elem_of_In, filter_In. split; [| done].
    apply in_map_iff. exists (to_dict note). split; [by destruct note |].
    apply in_or_app. right. by left. }
  subst st'. unfold add_memory_note in *. fold note.
  destruct to_session; simpl; apply elem_of_app; [right | left]; apply Hin.
Qed.

Lemma add_memory_note_then_search_witness :
  let r := add_memory_note "2024-05-01" (create_default "u")
             "User prefers bar charts" ["Chart_Type"; " bar "] false in
  fst r ∈ search_memories (snd r) (Some ["BAR"]) true true.
Proof.
  apply (add_memory_note_then_search "2024-05-01" (create_default "u")
           "User prefers bar charts" ["Chart_Type"; " bar "] false ["BAR"] "BAR").
  - vm_compute. left.
  - vm_compute. right. left.
Defined.

(** ** Recent visualizations *)

(** X4: for a positive [limit], [get_recent_visualizations] returns the
    last [limit] entries of the history (all of them when there are
    fewer); for [limit = 0] it returns the whole history, not an empty
    list. *)
Theorem get_recent_visualizations_spec st limit :
  (0 < limit →
     get_recent_visualizations st limit
       = last_n (Z.to_nat limit) (visualization_history st)
     ∧ Z.of_nat (length (get_recent_visualizations st limit))
       = Z.min limit (Z.of_nat (length (visualization_history st))))
  ∧ get_recent_visualizations st 0 = visualization_history st.
Proof.
  unfold get_recent_visualizations, slice_from, last_n.
  destruct (visualization_history st) as [| e h] eqn:Hh.
  { split; [| done]. intros Hl. simpl. split; [done | lia]. }
  split; [| done].
  intros Hl. rewrite (proj2 (Z.ltb_lt _ _)) by lia.
  split.
  - f_equal. lia.
  - rewrite length_drop. lia.
Qed.

Lemma get_recent_visualizations_spec_witness :
  let st := run_history (create_default "u") sample_calls in
  length (get_recent_visualizations st 5) = 5%nat.
Proof.
  intros st.
  destruct (get_recent_visualizations_spec st 5) as [Hpos _].
  destruct Hpos as [_ Hlen]; [lia |].
  apply Nat2Z.inj. rewrite Hlen. by vm_compute.
Defined.

(** ** Files: existence, deletion, defaults *)


Lemma state_from_dict_rendered d :
  system_frontmatter (state_from_dict d) = EmptyString
  ∧ global_memories_md (state_from_dict d) = EmptyString
  ∧ session_memories_md (state_from_dict d) = EmptyString.
Proof. done. Qed.


(** X5: [delete_state] reports whether the user's file existed, leaves no
    file for the user behind and touches no other file; after it a strict
    load finds nothing. *)
Theorem delete_state_spec can_write uid base_dir fs :
  let r := delete_state uid base_dir fs in
  fst r = state_exists uid base_dir fs
  ∧ state_exists uid base_dir (snd r) = false
  ∧ fst (load_state can_write uid base_dir false (snd r)) = None
  ∧ (∀ q, q ≠ get_state_file_path uid base_dir → snd r !! q = fs !! q).
Proof.
  unfold delete_state, state_exists, load_state. simpl.
  destruct (bool_decide (is_Some (fs !! _))) eqn:Hex; simpl.
  - rewrite lookup_delete_eq. split; [done |]. split.
    { apply bool_decide_eq_false. by intros [? ?]. }
    split; [done |]. intros q Hq. by rewrite lookup_delete_ne.
  - apply bool_decide_eq_false in Hex.
    split; [done |]. split; [by apply bool_decide_eq_false |].
    split; [| done].
    destruct (fs !! _) as [c |] eqn:Hc; [| done].
    exfalso. apply Hex. eauto.
Qed.




(** X8: a file that does not parse is never repaired: [load_state] answers
    with a fresh default state (or [None] in strict mode) and leaves the
    file as it is, so the user still counts as existing. *)
Theorem load_state_corrupt can_write uid base_dir create_if_missing fs :
  fs !! get_state_file_path uid base_dir = Some Garbage →
  let r := load_state can_write uid base_dir create_if_missing fs in
  fst r = (if create_if_missing then Some (create_default uid) else None)
  ∧ snd r = fs
  ∧ state_exists uid base_dir (snd r) = true.
Proof.
  intros Hbad. unfold load_state, state_exists. rewrite Hbad. simpl.
  split; [done |]. split; [done |].
  apply bool_decide_eq_true. eauto.
Qed.

Lemma load_state_corrupt_witness :
  fst (load_state name_fits "alice" None true
         (<[mkPath "states" "alice.json" := Garbage]> ∅))
  = Some (create_default "alice").
Proof.
  apply (load_state_corrupt name_fits "alice" None true
           (<[mkPath "states" "alice.json" := Garbage]> ∅)).
  by vm_compute.
Defined.

(** X9: user identifiers with the same sanitised form share one file:
    after a save that could write the file, loading under any such
    identifier returns the saved state, with the saved [user_id] and not
    the one asked for. *)
Theorem load_state_shared_file can_write st uid base_dir create_if_missing fs :
  safe_user_id uid = safe_user_id (user_id st) →
  can_write (get_state_file_path (user_id st) base_dir) = true →
  let saved := save_state can_write st base_dir fs in
  fst saved = true
  ∧ ∃ st',
      fst (load_state can_write uid base_dir create_if_missing (snd saved))
        = Some st'
      ∧ user_id st' = user_id st
      ∧ profile st' = profile st
      ∧ global_memory st' = global_memory st
      ∧ session_memory st' = session_memory st.
Proof.
  intros Hsafe Hw. cbv zeta. rewrite save_state_written by done.
  split; [done |].
  unfold load_state, get_state_file_path. simpl.
  rewrite Hsafe, lookup_insert_eq. simpl. eauto 10.
Qed.

Lemma load_state_shared_file_witness :
  ∃ st',
    fst (load_state name_fits "ab" None true
           (snd (save_state name_fits (create_default "a/b") None ∅))) = Some st'
    ∧ user_id st' = "a/b".
Proof.
  destruct (load_state_shared_file name_fits (create_default "a/b") "ab" None
              true ∅)
    as (_ & st' & Hload & Huid & _); [by vm_compute | by vm_compute |].
  exists st'. by split.
Defined.

(** ** Export, import and backup *)





(** ** Order of dates and merged notes *)

Lemma strongly_sorted_last {A} (R : relation A) (l : list A) m :
  (∀ x, R x x) → StronglySorted R l → last l = Some m → ∀ x, x ∈ l → R x m.
Proof.
  intros Hrefl Hsorted. induction Hsorted as [| y l Hl IH Hall]; [done |].
  intros Hlast x Hx. destruct l as [| z l].
  - injection Hlast as <-. apply list_elem_of_singleton in Hx as ->. apply Hrefl.
  - change (last (z :: l) = Some m) in Hlast.
    apply elem_of_cons in Hx as [-> | Hx]; [| by apply IH].
    eapply Forall_forall in Hall; [exact Hall |].
    rewrite last_lookup in Hlast. by eapply list_elem_of_lookup_2.
Qed.

Lemma index_last {A} (l : list A) : Py.index l (-1) = last l.
Proof.
  unfold Py.index. rewrite last_lookup.
  change (-1 <? 0) with true. cbn match.
  destruct (- (-1) <=? Z.of_nat (length l)) eqn:Hle.
  - apply Z.leb_le in Hle. f_equal. lia.
  - apply Z.leb_gt in Hle. destruct l; [done | simpl length in Hle; lia].
Qed.

Lemma fromkeys_aux_spec {A} `{EqDecision A} (seen l : list A) :
  NoDup (Py.fromkeys_aux seen l)
  ∧ ∀ x, x ∈ Py.fromkeys_aux seen l ↔ x ∈ l ∧ x ∉ seen.
Proof.
  revert seen. induction l as [| y l IH]; intros seen; simpl.
  - split; [constructor |]. intros x. split; [by intros ?%elem_of_nil |].
    by intros [?%elem_of_nil _].
  - destruct (decide (y ∈ seen)) as [Hin | Hnotin].
    + destruct (IH seen) as [Hnd Hiff]. split; [done |].
      intros x. rewrite Hiff, elem_of_cons. split; [tauto |].
      intros [[-> | Hx] Hseen]; [done | tauto].
    + destruct (IH (y :: seen)) as [Hnd Hiff]. split.
      * constructor; [| done]. rewrite Hiff. intros [_ Hy]. apply Hy. by left.
      * intros x. rewrite !elem_of_cons, Hiff, elem_of_cons. split.
        { intros [-> | [Hx Hseen]]; [tauto |]. tauto. }
        intros [[-> | Hx] Hseen]; [by left |].
        destruct (decide (x = y)) as [-> | Hne]; [by left | right; tauto].
Qed.

Lemma fromkeys_spec {A} `{EqDecision A} (l : list A) :
  NoDup (Py.fromkeys l) ∧ ∀ x, x ∈ Py.fromkeys l ↔ x ∈ l.
Proof.
  unfold Py.fromkeys. destruct (fromkeys_aux_spec [] l) as [Hnd Hiff].
  split; [done |]. intros x. rewrite Hiff. split; [tauto |].
  intros Hx. split; [done | by intros ?%elem_of_nil].
Qed.

Lemma merge_similar_notes_facts group :
  group ≠ [] →
  ∃ merged most_recent,
    _merge_similar_notes group = Ok merged
    ∧ most_recent ∈ group
    ∧ text merged = text most_recent
    ∧ last_update_date merged = last_update_date most_recent
    ∧ (∀ n, n ∈ group →
         String.leb (last_update_date n) (last_update_date most_recent) = true)
    ∧ NoDup (keywords merged)
    ∧ (length (keywords merged) ≤ 5)%nat
    ∧ (∀ k, k ∈ keywords merged → ∃ n, n ∈ group ∧ k ∈ keywords n).
Proof.
  intros Hne. unfold _merge_similar_notes. rewrite index_last.
  destruct (last (Py.sorted last_update_date group)) as [m |] eqn:Hlast.
  2: { apply last_None in Hlast. apply (f_equal length) in Hlast.
       rewrite sorted_length in Hlast. by destruct group. }
  assert (Hperm := sorted_perm last_update_date group).
  exists (mkNote (text m) (last_update_date m)
            (take 5 (Py.fromkeys
                       (concat (map keywords (Py.sorted last_update_date group)))))),
         m.
  destruct (fromkeys_spec
              (concat (map keywords (Py.sorted last_update_date group))))
    as [Hnd Hiff].
  simpl. split; [done |]. split.
  { rewrite <- Hperm. rewrite last_lookup in Hlast.
    by eapply list_elem_of_lookup_2. }
  split; [done |]. split; [done |]. split.
  { intros n Hn.
    apply (strongly_sorted_last
             (λ a b, String.leb (last_update_date a) (last_update_date b) = true)
             (Py.sorted last_update_date group) m).
    - intros x. apply string_leb_refl.
    - apply sorted_strongly.
    - done.
    - by rewrite Hperm. }
  split; [eapply sublist_NoDup; [exact Hnd | apply sublist_take] |].
  split; [rewrite length_take; lia |].
  intros k Hk. apply (sublist_subseteq _ _ (sublist_take _ 5)) in Hk.
  apply Hiff, list_elem_of_In, in_concat in Hk as (ks & Hks & Hk).
  apply in_map_iff in Hks as (n & <- & Hn).
  exists n. split; [| by apply list_elem_of_In].
  rewrite <- Hperm. by apply list_elem_of_In.
Qed.

(** X12: merging a non-empty group of notes succeeds; the merged note has
    the text and date of one member whose date is the latest of the group
    (in the order on date strings), and its keywords are at most five,
    pairwise distinct, and all taken from the members. *)
Theorem merge_similar_notes_spec group :
  group ≠ [] →
  ∃ merged most_recent,
    _merge_similar_notes group = Ok merged
    ∧ most_recent ∈ group
    ∧ text merged = text most_recent
    ∧ last_update_date merged = last_update_date most_recent
    ∧ (∀ n, n ∈ group →
         String.leb (last_update_date n) (last_update_date most_recent) = true)
    ∧ NoDup (keywords merged)
    ∧ (length (keywords merged) ≤ 5)%nat
    ∧ (∀ k, k ∈ keywords merged → ∃ n, n ∈ group ∧ k ∈ keywords n).
Proof. apply merge_similar_notes_facts. Qed.

Lemma merge_similar_notes_spec_witness :
  ∃ merged, _merge_similar_notes [note_old; note_new] = Ok merged
            ∧ NoDup (keywords merged).
Proof.
  destruct (merge_similar_notes_spec [note_old; note_new])
    as (merged & m & Hok & _ & _ & _ & _ & Hnd & _); [discriminate |].
  exists merged. by split.
Defined.

(** ** Which notes are similar *)

Lemma ratio_same n : (0 < n)%nat → (ratio n n == 1)%Q.
Proof.
  intros Hn. unfold ratio. rewrite (proj2 (Z.ltb_lt _ _)) by lia.
  unfold Qeq. simpl. rewrite Z2Pos.id by lia. lia.
Qed.

Lemma ratio_zero n : (ratio 0 n == 0)%Q.
Proof. unfold ratio. by destruct (0 <? _). Qed.

Lemma keyword_set_nonempty_size n :
  keywords n ≠ [] → (0 < size (keyword_set n))%nat.
Proof.
  intros Hne. destruct (decide (size (keyword_set n) = 0%nat)) as [H0 | ?]; [| lia].
  apply size_empty_inv, leibniz_equiv, keyword_set_empty in H0. done.
Qed.

Lemma calculate_similarity_no_keywords note1 note2 :
  keywords note1 = [] ∨ keywords note2 = [] →
  calculate_similarity note1 note2 = 0%Q.
Proof.
  unfold calculate_similarity.
  intros [H | H]; apply keyword_set_empty in H; rewrite H.
  - by rewrite bool_decide_eq_true_2.
  - rewrite (bool_decide_eq_true_2 (∅ = ∅)) by done. by rewrite orb_true_r.
Qed.

(** X13: two notes with the same, non-empty set of keywords are similar
    at the default threshold whatever their texts are; two notes without
    a common keyword score at most 0.4 and are never similar at that
    threshold, even with one and the same text. *)
Theorem similarity_decided_by_keywords note1 note2 :
  (keywords note1 ≠ [] → keyword_set note1 = keyword_set note2 →
     are_memories_similar note1 note2 default_threshold = true)
  ∧ (keyword_set note1 ## keyword_set note2 →
     (calculate_similarity note1 note2 <= 4 # 10)%Q
     ∧ are_memories_similar note1 note2 default_threshold = false).
Proof.
  split.
  - intros Hne Hsame. unfold are_memories_similar. apply Qle_bool_iff.
    unfold calculate_similarity.
    assert (Hne2 : keyword_set note2 ≠ ∅).
    { rewrite <- Hsame, keyword_set_empty. done. }
    rewrite (bool_decide_eq_false_2 (keyword_set note1 = ∅))
      by by rewrite keyword_set_empty.
    rewrite (bool_decide_eq_false_2 (keyword_set note2 = ∅)) by done.
    simpl.
    assert (Hkw : (jaccard (keyword_set note1) (keyword_set note2) == 1)%Q).
    { unfold jaccard. rewrite <- Hsame.
      replace (keyword_set note1 ∩ keyword_set note1) with (keyword_set note1)
        by set_solver.
      replace (keyword_set note1 ∪ keyword_set note1) with (keyword_set note1)
        by set_solver.
      by apply ratio_same, keyword_set_nonempty_size. }
    pose proof (jaccard_bounds (word_set note1) (word_set note2)).
    unfold default_threshold. lra.
  - intros Hdisj.
    assert (Hle : (calculate_similarity note1 note2 <= 4 # 10)%Q).
    { unfold calculate_similarity. destruct (_ || _); [discriminate |].
      assert (Hkw : (jaccard (keyword_set note1) (keyword_set note2) == 0)%Q).
      { unfold jaccard.
        replace (keyword_set note1 ∩ keyword_set note2) with (∅ : gset string)
          by set_solver.
        rewrite size_empty. apply ratio_zero. }
      pose proof (jaccard_bounds (word_set note1) (word_set note2)). lra. }
    split; [done |]. apply not_similar_lt. unfold default_threshold. lra.
Qed.

Lemma similarity_decided_by_keywords_witness :
  are_memories_similar bar_note_1 bar_note_2 default_threshold = true
  ∧ are_memories_similar note_old note_mid default_threshold = false.
Proof.
  destruct (similarity_decided_by_keywords bar_note_1 bar_note_2) as [Hsame _].
  destruct (similarity_decided_by_keywords note_old note_mid) as [_ Hdisj].
  split.
  - apply Hsame; [discriminate | reflexivity].
  - apply Hdisj. apply disjoint_intersection_L. by vm_compute.
Defined.

(** ** What deduplication keeps *)

(** X14: [deduplicate_memories] never raises; it returns at most as many
    notes as it was given, and none only for an empty list. *)
Theorem deduplicate_memories_shrinks notes threshold :
  ∃ out,
    deduplicate_memories notes threshold = Ok out
    ∧ (length out ≤ length notes)%nat
    ∧ (out = [] ↔ notes = []).
Proof.
  destruct (deduplicate_memories_clusters notes threshold) as (out & Hout & Hall).
  exists out. split; [done |].
  split; [by eapply deduplicate_memories_length |].
  split.
  - intros ->. apply Forall2_nil_inv_r in Hall.
    pose proof (dedup_loop_perm threshold (Py.sorted last_update_date notes))
      as Hperm.
    unfold dedup_clusters in Hall. rewrite Hall in Hperm. simpl in Hperm.
    apply Permutation_nil_l in Hperm.
    apply (f_equal length) in Hperm. rewrite sorted_length in Hperm.
    by destruct notes.
  - intros ->. vm_compute in Hout. congruence.
Qed.

(** X15: with a positive threshold a note without keywords is never
    merged away: every such input note is among the deduplicated
    notes, unchanged. *)
Theorem deduplicate_keeps_notes_without_keywords notes threshold out note :
  (0 < threshold)%Q →
  deduplicate_memories notes threshold = Ok out →
  note ∈ notes → keywords note = [] →
  note ∈ out.
Proof.
  intros Hthr Hout Hnote Hkw.
  destruct (deduplicate_memories_clusters notes threshold) as (out' & Heq & Hall).
  rewrite Hout in Heq. injection Heq as <-.
  destruct (dedup_loop_inv threshold (Py.sorted last_update_date notes))
    as (_ & _ & Hok). simpl in Hok.
  pose proof (dedup_loop_perm threshold (Py.sorted last_update_date notes))
    as Hperm.
  fold (dedup_clusters notes threshold) in Hok, Hperm.
  assert (Hc : ∃ c, c ∈ dedup_clusters notes threshold ∧ note ∈ c.2).
  { rewrite <- (sorted_perm last_update_date notes), <- Hperm in Hnote.
    apply list_elem_of_In, in_concat in Hnote as (l & Hl & Hin).
    apply list_elem_of_In, list_elem_of_fmap in Hl as (c & -> & Hc).
    exists c. split; [done | by apply list_elem_of_In]. }
  destruct Hc as (c & Hc & Hin).
  assert (Hdissim : ∀ a b, keywords a = [] ∨ keywords b = [] →
                      are_memories_similar a b threshold = true → False).
  { intros a b Hab Hsim. unfold are_memories_similar in Hsim.
    apply Qle_bool_iff in Hsim.
    rewrite (calculate_similarity_no_keywords a b Hab) in Hsim. lra. }
  pose proof Hc as Hc'.
  eapply Forall_forall in Hok; [| exact Hc].
  destruct Hok as (_ & others & Hc2 & Hothers).
  assert (Hseed : note = c.1).
  { rewrite Hc2 in Hin. apply elem_of_cons in Hin as [Hin | Hin]; [done |].
    eapply Forall_forall in Hothers; [| exact Hin].
    destruct Hothers as [_ Hsim]. exfalso. apply (Hdissim c.1 note); tauto. }
  assert (Hsingle : others = []).
  { destruct others as [| m others]; [done |].
    apply Forall_cons in Hothers as [[_ Hsim] _].
    exfalso. apply (Hdissim c.1 m); [| done]. left. by rewrite <- Hseed. }
  apply list_elem_of_lookup in Hc' as [i Hi].
  destruct (Forall2_lookup_l _ _ _ _ _ Hall Hi) as (r & Hr & Hemit).
  rewrite Hc2, Hsingle, <- Hseed in Hemit. vm_compute in Hemit.
  injection Hemit as <-. by eapply list_elem_of_lookup_2.
Qed.

Lemma deduplicate_keeps_notes_without_keywords_witness :
  bare_note ∈ [bare_note; bare_note].
Proof.
  apply (deduplicate_keeps_notes_without_keywords
           [bare_note; bare_note] default_threshold [bare_note; bare_note]).
  - by vm_compute.
  - by vm_compute.
  - left.
  - reflexivity.
Defined.

(** X16: deduplication invents nothing: every returned note has the text
    and the date of one input note, and each of its keywords is a keyword
    of some input note. *)
Theorem deduplicate_memories_provenance notes threshold out r :
  deduplicate_memories notes threshold = Ok out →
  r ∈ out →
  (∃ m, m ∈ notes ∧ text r = text m
        ∧ last_update_date r = last_update_date m)
  ∧ (∀ k, k ∈ keywords r → ∃ n, n ∈ notes ∧ k ∈ keywords n).
Proof.
  intros Hout Hr.
  destruct (deduplicate_memories_clusters notes threshold) as (out' & Heq & Hall).
  rewrite Hout in Heq. injection Heq as <-.
  destruct (dedup_loop_inv threshold (Py.sorted last_update_date notes))
    as (_ & _ & Hok). simpl in Hok.
  fold (dedup_clusters notes threshold) in Hok.
  apply list_elem_of_lookup in Hr as [i Hi].
  destruct (Forall2_lookup_r _ _ _ _ _ Hall Hi) as (c & Hc & Hemit).
  eapply Forall_forall in Hok; [| by eapply list_elem_of_lookup_2].
  destruct Hok as (Hseed & others & Hc2 & Hothers).
  assert (Hmem : ∀ n, n ∈ c.2 → n ∈ notes).
  { intros n Hn. rewrite <- (sorted_perm last_update_date notes).
    rewrite Hc2 in Hn. apply elem_of_cons in Hn as [-> | Hn]; [done |].
    eapply Forall_forall in Hothers; [| exact Hn]. tauto. }
  unfold emit_note in Hemit. destruct (1 <? _).
  - destruct (merge_similar_notes_facts c.2)
      as (merged & m & Hok' & Hm & Ht & Hd & _ & _ & _ & Hk).
    { by rewrite Hc2. }
    rewrite Hok' in Hemit. injection Hemit as <-. split.
    + exists m. split; [by apply Hmem | done].
    + intros k Hkin. destruct (Hk k Hkin) as (n & Hn & Hkn).
      exists n. split; [by apply Hmem | done].
  - injection Hemit as <-.
    assert (Hin : c.1 ∈ notes)
      by (by rewrite <- (sorted_perm last_update_date notes)).
    split; [by exists c.1 |]. intros k Hk. by exists c.1.
Qed.

Lemma deduplicate_memories_provenance_witness :
  ∃ m, m ∈ [note_old; note_mid; note_new]
       ∧ text note_new = text m
       ∧ last_update_date note_new = last_update_date m.
Proof.
  destruct (deduplicate_memories_provenance [note_old; note_mid; note_new]
              default_threshold [note_new; note_mid] note_new) as [Hm _].
  - by vm_compute.
  - left.
  - exact Hm.
Defined.

(** ** Cleaning up old memories *)

Lemma from_dict_to_dict_list (l : list MemoryNote) :
  map from_dict (map to_dict l) = l.
Proof.
  induction l as [| [t d k] l IH]; simpl; [done |]. by rewrite IH.
Qed.

Lemma sorted_desc_perm {A} (key : A → string) (l : list A) :
  sorted_desc key l ≡ₚ l.
Proof.
  unfold sorted_desc.
  rewrite <- (Permutation_rev (Py.sorted key (rev l))), sorted_perm.
  symmetry. apply Permutation_rev.
Qed.

Lemma sorted_desc_split {A} (key : A → string) (l kept dropped : list A) :
  sorted_desc key l = kept ++ dropped →
  ∀ k d, k ∈ kept → d ∈ dropped → String.leb (key d) (key k) = true.
Proof.
  unfold sorted_desc. intros Hsplit k d Hk Hd.
  pose proof (sorted_strongly key (rev l)) as Hsorted.
  apply (f_equal (@rev A)) in Hsplit.
  rewrite rev_involutive, rev_app_distr in Hsplit. rewrite Hsplit in Hsorted.
  apply (StronglySorted_app_1_elem_of _ _ _ d k) in Hsorted; [done | |].
  - apply list_elem_of_In, in_rev. rewrite rev_involutive. by apply list_elem_of_In.
  - apply list_elem_of_In, in_rev. rewrite rev_involutive. by apply list_elem_of_In.
Qed.

Lemma take_then_rest {A} (n : nat) (l : list A) :
  l = take n l ++ drop (length (take n l)) l.
Proof.
  rewrite length_take. destruct (decide (n ≤ length l)%nat).
  - rewrite Nat.min_l by lia. by rewrite take_drop.
  - rewrite Nat.min_r by lia. rewrite take_ge by lia.
    by rewrite drop_all, app_nil_r.
Qed.

Lemma slice_until_sublist {A} (n : Z) (l : list A) :
  sublist (slice_until n l) l.
Proof. unfold slice_until. destruct (n <? 0); apply sublist_take. Qed.

Lemma slice_until_length {A} (n : Z) (l : list A) :
  0 ≤ n → Z.of_nat (length (slice_until n l)) ≤ n.
Proof.
  intros Hn. unfold slice_until. rewrite (proj2 (Z.ltb_ge _ _)) by lia.
  rewrite length_take. lia.
Qed.

(** X17: [cleanup_old_memories] keeps global notes only: what it keeps is
    drawn from the global notes without repetition beyond theirs, each
    kept note is at most [max_age_days] old or has a date whose age cannot
    be computed, for [max_memories >= 0] at most [max_memories] notes
    remain, and when the notes that pass the age test are that few they
    are all kept in their order; the counts it reports are those of the
    notes before and after, and no other part of the state changes. *)
Theorem cleanup_old_memories_spec days_old st max_age_days max_memories :
  let r := cleanup_old_memories days_old st max_age_days max_memories in
  let all := map from_dict (get_notes (global_memory st)) in
  let kept := map from_dict (get_notes (global_memory (snd r))) in
  let young := λ note : MemoryNote,
    match days_old (last_update_date note) with
    | Some age_days => age_days <=? max_age_days
    | None => true
    end in
  kept ⊆+ all
  ∧ Forall (λ note, young note = true) kept
  ∧ (0 ≤ max_memories → Z.of_nat (length kept) ≤ max_memories)
  ∧ (Z.of_nat (length (List.filter young all)) ≤ max_memories →
     kept = List.filter young all)
  ∧ cleanup_before_count (fst r) = Z.of_nat (length all)
  ∧ cleanup_after_count (fst r) = Z.of_nat (length kept)
  ∧ cleanup_removed_count (fst r)
      = cleanup_before_count (fst r) - cleanup_after_count (fst r)
  ∧ 0 ≤ cleanup_removed_count (fst r)
  ∧ set_global_memory (snd r) (global_memory st) = st.
Proof.
  intros r all kept young. subst r kept. unfold cleanup_old_memories.
  fold all. fold young. cbn [fst snd]. 
  set (recent := List.filter young all).
  set (final := if max_memories <? Z.of_nat (length recent)
                then slice_until max_memories (sorted_desc last_update_date recent)
                else recent).
  cbn [global_memory set_global_memory get_notes notes default
       cleanup_before_count cleanup_after_count cleanup_removed_count].
  unfold id. rewrite from_dict_to_dict_list.
  assert (Hsub : final ⊆+ recent).
  { unfold final. destruct (_ <? _); [| done].
    etrans; [apply sublist_submseteq, slice_until_sublist |].
    apply Permutation_submseteq, sorted_desc_perm. }
  assert (Hrecent : recent ⊆+ all).
  { apply sublist_submseteq, filter_sublist. }
  split; [by etrans |]. split.
  { apply Forall_forall. intros n Hn.
    assert (n ∈ recent) as Hin by (by eapply elem_of_submseteq).
    apply list_elem_of_In, filter_In in Hin. tauto. }
  split.
  { intros Hmax. unfold final. destruct (_ <? _) eqn:Hlt.
    - by apply slice_until_length.
    - by apply Z.ltb_ge in Hlt. }
  split.
  { intros Hfew. unfold final. by rewrite (proj2 (Z.ltb_ge _ _)). }
  split; [done |]. split; [done |]. split; [done |]. split.
  { apply submseteq_length in Hsub. apply submseteq_length in Hrecent. lia. }
  by destruct st.
Qed.

Lemma cleanup_old_memories_spec_witness :
  Z.of_nat (length (get_notes (global_memory
     (snd (cleanup_old_memories (λ _, None) three_note_state 365 1))))) ≤ 1.
Proof.
  destruct (cleanup_old_memories_spec (λ _, None) three_note_state 365 1)
    as (_ & _ & Hmax & _).
  rewrite length_map in Hmax. apply Hmax. lia.
Defined.

(** X18: when [cleanup_old_memories] has to cut down to [max_memories],
    it keeps the most recent notes: the notes that pass the age test,
    ordered from the latest date to the earliest, split into the kept
    notes followed by the dropped ones, and no dropped note has a later
    date than a kept one. *)
Theorem cleanup_old_memories_keeps_latest days_old st max_age_days max_memories :
  let r := cleanup_old_memories days_old st max_age_days max_memories in
  let all := map from_dict (get_notes (global_memory st)) in
  let kept := map from_dict (get_notes (global_memory (snd r))) in
  let young := λ note : MemoryNote,
    match days_old (last_update_date note) with
    | Some age_days => age_days <=? max_age_days
    | None => true
    end in
  max_memories < Z.of_nat (length (List.filter young all)) →
  ∃ dropped,
    sorted_desc last_update_date (List.filter young all) = kept ++ dropped
    ∧ ∀ k d, k ∈ kept → d ∈ dropped →
        String.leb (last_update_date d) (last_update_date k) = true.
Proof.
  intros r all kept young Hmany. subst r kept. unfold cleanup_old_memories.
  fold all. fold young.
  rewrite (proj2 (Z.ltb_lt _ _)) by done.
  cbn [snd global_memory set_global_memory get_notes notes default].
  unfold id. rewrite from_dict_to_dict_list.
  set (sorted_notes := sorted_desc last_update_date (List.filter young all)).
  exists (drop (length (slice_until max_memories sorted_notes)) sorted_notes).
  assert (Hsplit : sorted_notes
                   = slice_until max_memories sorted_notes
                     ++ drop (length (slice_until max_memories sorted_notes))
                          sorted_notes).
  { unfold slice_until. destruct (max_memories <? 0); apply take_then_rest. }
  split; [done |].
  apply (sorted_desc_split last_update_date (List.filter young all)).
  exact Hsplit.
Qed.

Lemma cleanup_old_memories_keeps_latest_witness :
  ∃ dropped,
    sorted_desc last_update_date [note_old; note_new]
      = map from_dict (get_notes (global_memory
          (snd (cleanup_old_memories (λ _, None) three_note_state 365 1))))
        ++ dropped.
Proof.
  destruct (cleanup_old_memories_keeps_latest (λ _, None) three_note_state 365 1)
    as (dropped & Hsplit & _).
  - vm_compute. reflexivity.
  - exists dropped. exact Hsplit.
Defined.

(** ** What trimming does to the transcript and the state *)

Lemma extract_context_truthy messages :
  Py.truthy (_extract_context_from_trimmed messages) = true.
Proof.
  unfold _extract_context_from_trimmed.
  by destruct (concat (map context_points_of messages)).
Qed.

Lemma user_indices_bound conv k c :
  user_indices conv !! k = Some c → (c < length conv)%nat.
Proof.
  revert k c. induction conv as [| m conv IH]; intros k c; [done |].
  rewrite user_indices_cons. simpl length.
  destruct (is_user m); simpl.
  - destruct k as [| k]; simpl; [intros [= <-]; lia |].
    rewrite list_lookup_fmap.
    destruct (user_indices conv !! k) as [c' |] eqn:Hc; [| done].
    intros [= <-]. apply IH in Hc. lia.
  - rewrite list_lookup_fmap.
    destruct (user_indices conv !! k) as [c' |] eqn:Hc; [| done].
    intros [= <-]. apply IH in Hc. lia.
Qed.

(** The cases of [trim_conversation]: nothing to do, an index error, or a
    cut at a user message. *)
Lemma trim_conversation_cases today conv st max_turns preserve :
  trim_conversation today conv st max_turns preserve = Ok (conv, 0, st)
  ∨ trim_conversation today conv st max_turns preserve = Raise IndexError
  ∨ ∃ k c,
      user_indices conv !! k = Some c
      ∧ (0 < max_turns → Z.of_nat k = Z.of_nat (length (user_indices conv)) - max_turns)
      ∧ max_turns < Z.of_nat (length (user_indices conv))
      ∧ trim_conversation today conv st max_turns preserve
        = Ok (drop c conv, Z.of_nat (length (take c conv)),
              match preserve, take c conv with
              | true, _ :: _ =>
                  set_inject
                    (snd (add_memory_note today st
                            (_extract_context_from_trimmed (take c conv))
                            ["context"; "conversation"] true)) true
              | _, _ => st
              end).
Proof.
  unfold trim_conversation.
  destruct (negb _); [by left |].
  destruct (_ <=? max_turns) eqn:Hle; [by left |].
  apply Z.leb_gt in Hle.
  destruct (Py.index (user_indices conv) (- max_turns)) as [c |] eqn:Hidx;
    [| by right; left].
  right; right. unfold Py.index in Hidx.
  destruct (- max_turns <? 0) eqn:Hneg.
  - apply Z.ltb_lt in Hneg.
    destruct (_ <=? _); [| done].
    eexists _, c. split; [exact Hidx |]. split; [intros _; lia |].
    split; [done |]. rewrite extract_context_truthy. done.
  - apply Z.ltb_ge in Hneg.
    eexists _, c. split; [exact Hidx |]. split; [intros; lia |].
    split; [done |]. rewrite extract_context_truthy. done.
Qed.

Lemma trim_conversation_effect_facts today conv st max_turns preserve kept removed st' :
  trim_conversation today conv st max_turns preserve = Ok (kept, removed, st') →
  conv = take (Z.to_nat removed) conv ++ kept
  ∧ removed = Z.of_nat (length conv) - Z.of_nat (length kept)
  ∧ (if preserve && (0 <? removed)
     then ∃ note,
            get_notes (session_memory st')
              = get_notes (session_memory st) ++ [to_dict note]
            ∧ keywords note = ["context"; "conversation"]
            ∧ inject_session_memories_next_turn st' = true
            ∧ global_memory st' = global_memory st
            ∧ profile st' = profile st
            ∧ visualization_history st' = visualization_history st
     else st' = st).
Proof.
  intros Hok.
  destruct (trim_conversation_cases today conv st max_turns preserve)
    as [Hsame | [Hraise | (k & c & Hc & _ & _ & Hcut)]].
  - rewrite Hsame in Hok. injection Hok as <- <- <-.
    split; [done |]. split; [lia |]. by rewrite andb_false_r.
  - congruence.
  - rewrite Hcut in Hok. injection Hok as <- <- <-.
    apply user_indices_bound in Hc.
    rewrite Nat2Z.id, length_take, Nat.min_l by lia.
    split; [by rewrite take_drop |].
    split; [rewrite length_drop; lia |].
    destruct preserve; [| done]. simpl.
    destruct c as [| c]; [done |].
    destruct conv as [| m conv]; [simpl in Hc; lia |].
    simpl take. cbn [length]. rewrite (proj2 (Z.ltb_lt _ _)) by lia.
    eexists. unfold add_memory_note. simpl. done.
Qed.

(** X19: whenever [trim_conversation] returns, the kept messages are a
    suffix of the transcript and the reported number is the number of
    messages cut off in front.  If messages were cut and
    [preserve_context] is set, exactly one note is appended to the session
    memory, with the keywords [context] and [conversation], and the
    reinjection flag is set; in every other case the state is returned as
    it was. *)
Theorem trim_conversation_effect today conv st max_turns preserve kept removed st' :
  trim_conversation today conv st max_turns preserve = Ok (kept, removed, st') →
  conv = take (Z.to_nat removed) conv ++ kept
  ∧ removed = Z.of_nat (length conv) - Z.of_nat (length kept)
  ∧ (if preserve && (0 <? removed)
     then ∃ note,
            get_notes (session_memory st')
              = get_notes (session_memory st) ++ [to_dict note]
            ∧ keywords note = ["context"; "conversation"]
            ∧ inject_session_memories_next_turn st' = true
            ∧ global_memory st' = global_memory st
            ∧ profile st' = profile st
            ∧ visualization_history st' = visualization_history st
     else st' = st).
Proof. apply trim_conversation_effect_facts. Qed.

Lemma trim_conversation_effect_witness :
  ∃ kept st',
    trim_conversation "2024-05-01" five_turns (create_default "u") 2 true
      = Ok (kept, 6, st')
    ∧ five_turns = take 6 five_turns ++ kept.
Proof.
  destruct (trim_conversation "2024-05-01" five_turns (create_default "u") 2 true)
    as [[[kept removed] st'] | e] eqn:Htrim;
    [| vm_compute in Htrim; discriminate].
  assert (removed = 6) as -> by (vm_compute in Htrim; congruence).
  exists kept, st'. split; [reflexivity |].
  destruct (trim_conversation_effect _ _ _ _ _ _ _ _ Htrim) as [Hsuffix _].
  exact Hsuffix.
Defined.

(** X20: a negative [max_turns] whose magnitude is at least the number of
    user messages makes [trim_conversation] raise [IndexError]; this
    includes every negative [max_turns] on an empty transcript. *)
Theorem trim_conversation_index_error today conv st max_turns preserve :
  max_turns < 0 →
  Z.of_nat (length (user_messages conv)) ≤ - max_turns →
  trim_conversation today conv st max_turns preserve = Raise IndexError.
Proof.
  intros Hneg Hfew. unfold trim_conversation, should_trim_conversation.
  rewrite (proj2 (Z.ltb_lt _ _)) by lia. simpl.
  rewrite <- user_indices_length in Hfew.
  rewrite (proj2 (Z.leb_gt _ _)) by lia.
  unfold Py.index. rewrite (proj2 (Z.ltb_ge _ _)) by lia.
  rewrite (proj2 (lookup_ge_None _ _)); [done | lia].
Qed.

Lemma trim_conversation_index_error_witness :
  trim_conversation "2024-05-01" [] (create_default "u") (-1) true
  = Raise IndexError.
Proof.
  apply (trim_conversation_index_error "2024-05-01" [] (create_default "u")
           (-1) true); simpl; lia.
Defined.

Lemma trim_conversation_turns_facts today conv st max_turns preserve :
  1 ≤ max_turns →
  ∃ kept removed st',
    trim_conversation today conv st max_turns preserve = Ok (kept, removed, st')
    ∧ Z.of_nat (length (user_messages kept))
      = Z.min max_turns (Z.of_nat (length (user_messages conv)))
    ∧ (0 < removed → ∃ m rest, kept = m :: rest ∧ is_user m = true).
Proof.
  intros Hmax.
  destruct (should_trim_conversation conv max_turns) eqn:Hshould.
  2: { exists conv, 0, st. rewrite trim_conversation_no_trim by done.
       unfold should_trim_conversation in Hshould. apply Z.ltb_ge in Hshould.
       split; [done |]. split; lia. }
  unfold trim_conversation. rewrite Hshould. simpl.
  unfold should_trim_conversation in Hshould. apply Z.ltb_lt in Hshould.
  rewrite <- user_indices_length in Hshould.
  rewrite (proj2 (Z.leb_gt _ _)) by lia.
  unfold Py.index.
  rewrite (proj2 (Z.ltb_lt _ _)) by lia.
  rewrite (proj2 (Z.leb_le _ _)) by lia.
  destruct (user_indices conv !! _) as [c |] eqn:Hc.
  2: { apply lookup_ge_None in Hc. lia. }
  destruct (user_indices_drop _ _ _ Hc) as [Hcount Hfront].
  eexists _, _, _. split; [done |].
  split; [rewrite Hcount, <- user_indices_length; lia |].
  intros _. destruct (drop c conv) as [| m rest]; [done |].
  exists m, rest. split; [done |].
  rewrite user_indices_cons in Hfront.
  destruct (is_user m); [done |]. simpl in Hfront.
  rewrite list_lookup_fmap in Hfront.
  by destruct (user_indices rest !! 0%nat).
Qed.

(** X21: for [max_turns >= 1], [trim_conversation] always returns, and the
    kept transcript holds the smaller of [max_turns] and the number of
    user messages of the input; if anything was removed, the kept
    transcript starts with a user message. *)
Theorem trim_conversation_user_turns today conv st max_turns preserve :
  1 ≤ max_turns →
  ∃ kept removed st',
    trim_conversation today conv st max_turns preserve = Ok (kept, removed, st')
    ∧ Z.of_nat (length (user_messages kept))
      = Z.min max_turns (Z.of_nat (length (user_messages conv)))
    ∧ (0 < removed → ∃ m rest, kept = m :: rest ∧ is_user m = true).
Proof. apply trim_conversation_turns_facts. Qed.

Lemma trim_conversation_user_turns_witness :
  ∃ kept removed st',
    trim_conversation "2024-05-01" fifteen_turns (create_default "u") 10 true
      = Ok (kept, removed, st')
    ∧ Z.of_nat (length (user_messages kept)) = 10.
Proof.
  destruct (trim_conversation_user_turns "2024-05-01" fifteen_turns
              (create_default "u") 10 true)
    as (kept & removed & st' & Hok & Hcount & _); [lia |].
  exists kept, removed, st'. split; [exact Hok |].
  rewrite Hcount. by vm_compute.
Defined.

(** ** Token estimates and the token-budget trim *)

Lemma total_chars_app a b :
  total_chars (a ++ b) = total_chars a + total_chars b.
Proof.
  unfold total_chars. induction a as [| m a IH]; simpl; [done |].
  rewrite IH. lia.
Qed.

Lemma total_chars_nonneg a : 0 ≤ total_chars a.
Proof.
  unfold total_chars. induction a as [| m a IH]; simpl; lia.
Qed.

(** X22: the token estimate of a concatenation is the sum of the two
    estimates or one more, and the estimate is never negative. *)
Theorem estimate_conversation_tokens_app a b :
  0 ≤ estimate_conversation_tokens a
  ∧ estimate_conversation_tokens a + estimate_conversation_tokens b
    ≤ estimate_conversation_tokens (a ++ b)
  ∧ estimate_conversation_tokens (a ++ b)
    ≤ estimate_conversation_tokens a + estimate_conversation_tokens b + 1.
Proof.
  unfold estimate_conversation_tokens. rewrite total_chars_app.
  pose proof (total_chars_nonneg a). pose proof (total_chars_nonneg b).
  repeat split; Z.to_euclidean_division_equations; lia.
Qed.

Lemma keep_older_suffix available l kept current :
  ∃ n, (n ≤ length l)%nat
       ∧ keep_older available l kept current = rev (take n l) ++ kept.
Proof.
  revert kept current. induction l as [| msg l IH]; intros kept current; simpl.
  - exists 0%nat. by split.
  - destruct (_ <=? _).
    + destruct (IH (msg :: kept) (current + message_tokens msg)) as (n & Hn & ->).
      exists (S n). split; [lia |]. simpl. by rewrite <- app_assoc.
    + exists 0%nat. split; [lia | done].
Qed.

Lemma preserve_trimmed_context_effect today messages st :
  let st' := _preserve_trimmed_context today messages st in
  (∃ note, get_notes (session_memory st')
             = get_notes (session_memory st) ++ [to_dict note]
           ∧ keywords note = ["context"; "trimmed"])
  ∧ global_memory st' = global_memory st
  ∧ profile st' = profile st
  ∧ visualization_history st' = visualization_history st.
Proof.
  unfold _preserve_trimmed_context. rewrite extract_context_truthy.
  unfold add_memory_note. simpl. split; [| done]. eexists. split; done.
Qed.

(** X23: for [preserve_recent >= 0], [smart_trim_conversation] always
    returns a suffix of the transcript; it returns the transcript and the
    state untouched when the estimate is within the target; for
    [preserve_recent >= 1] the result still holds at least the smaller of
    [preserve_recent] and the number of user messages; the global memory
    never changes and the session memory grows by at most one note. *)
Theorem smart_trim_conversation_spec today conv st target_tokens preserve_recent :
  0 ≤ preserve_recent →
  ∃ kept st',
    smart_trim_conversation today conv st target_tokens preserve_recent
      = Ok (kept, st')
    ∧ (∃ removed, conv = removed ++ kept)
    ∧ (estimate_conversation_tokens conv ≤ target_tokens →
       kept = conv ∧ st' = st)
    ∧ (1 ≤ preserve_recent →
       Z.min preserve_recent (Z.of_nat (length (user_messages conv)))
       ≤ Z.of_nat (length (user_messages kept)))
    ∧ global_memory st' = global_memory st
    ∧ (length (get_notes (session_memory st'))
       ≤ length (get_notes (session_memory st)) + 1)%nat.
Proof.
  intros Hp. unfold smart_trim_conversation.
  destruct (_ <=? target_tokens) eqn:Hfit.
  { exists conv, st. split; [done |]. split; [by exists [] |].
    split; [done |]. split; [lia |]. split; [done | lia]. }
  apply Z.leb_gt in Hfit.
  destruct (_ <=? preserve_recent) eqn:Hfew.
  { exists conv, st. split; [done |]. split; [by exists [] |].
    split; [done |]. split; [lia |]. split; [done | lia]. }
  apply Z.leb_gt in Hfew.
  assert (Hidx : ∃ k c, Py.index (user_indices conv) (- preserve_recent) = Some c
                        ∧ user_indices conv !! k = Some c
                        ∧ (1 ≤ preserve_recent →
                           Z.of_nat k = Z.of_nat (length (user_indices conv))
                                        - preserve_recent)).
  { unfold Py.index. destruct (- preserve_recent <? 0) eqn:Hneg.
    - apply Z.ltb_lt in Hneg. rewrite (proj2 (Z.leb_le _ _)) by lia.
      destruct (user_indices conv !! _) as [c |] eqn:Hc.
      + eexists _, c. split; [done |]. split; [exact Hc |]. lia.
      + apply lookup_ge_None in Hc. lia.
    - apply Z.ltb_ge in Hneg.
      destruct (user_indices conv !! _) as [c |] eqn:Hc.
      + eexists _, c. split; [done |]. split; [exact Hc |]. lia.
      + apply lookup_ge_None in Hc. lia. }
  destruct Hidx as (k & c & -> & Hc & Hk).
  destruct (user_indices_drop _ _ _ Hc) as [Hcount _].
  rewrite user_indices_length in Hk, Hfew.
  assert (Hrecent : 1 ≤ preserve_recent →
            Z.of_nat (length (user_messages (drop c conv))) = preserve_recent).
  { intros H1. rewrite Hcount. specialize (Hk H1). lia. }
  destruct (_ <=? 0) eqn:Havail.
  - destruct (preserve_trimmed_context_effect today (take c conv) st)
      as ((note & Hnote & _) & Hglobal & _).
    eexists _, _. split; [done |].
    split; [exists (take c conv); by rewrite take_drop |].
    split; [lia |]. split; [intros H1; rewrite Hrecent by done; lia |].
    split; [done |]. simpl. rewrite Hnote, length_app. simpl. lia.
  - set (available := target_tokens - _).
    destruct (keep_older_suffix available (rev (take c conv)) [] 0)
      as (n & Hn & Hkept).
    rewrite length_rev in Hn.
    rewrite Hkept, app_nil_r, firstn_rev, rev_involutive, length_drop.
    set (older := take c conv) in *.
    replace (length older - (length older - n))%nat with n by lia.
    unfold slice_until.
    rewrite (proj2 (Z.ltb_ge _ _)) by lia.
    replace (Z.to_nat (Z.of_nat (length older) - Z.of_nat n))
      with (length older - n)%nat by lia.
    eexists _, _. split; [done |]. split.
    { exists (take (length older - n) older).
      rewrite app_assoc, take_drop. unfold older. by rewrite take_drop. }
    split; [lia |]. split.
    { intros H1. unfold user_messages in *. rewrite List.filter_app, length_app.
      rewrite Nat2Z.inj_add, Hrecent by done. lia. }
    destruct (take (length older - n) older) as [| m rest] eqn:Hrem;
      [split; [done | lia] |].
    destruct (preserve_trimmed_context_effect today (m :: rest) st)
      as ((note & Hnote & _) & Hglobal & _).
    split; [done |]. simpl. rewrite Hnote, length_app. simpl. lia.
Qed.

Lemma smart_trim_conversation_spec_witness :
  ∃ kept st',
    smart_trim_conversation "2024-05-01" fifteen_turns (create_default "u") 10 3
      = Ok (kept, st')
    ∧ ∃ removed, fifteen_turns = removed ++ kept.
Proof.
  destruct (smart_trim_conversation_spec "2024-05-01" fifteen_turns
              (create_default "u") 10 3)
    as (kept & st' & Hok & Hsuffix & _); [lia |].
  exists kept, st'. by split.
Defined.

(** ** The conversation manager *)

(** X24: with automatic trimming and [max_turns >= 1], [add_message]
    always returns; the returned history ends with the message just added,
    is a suffix of the old history extended by that message, and never
    holds more than [max_turns] user messages; the manager's settings are
    unchanged. *)
Theorem add_message_bounded today self conv role content :
  1 ≤ cm_max_turns self →
  cm_auto_trim self = true →
  ∃ conv' self',
    add_message today self conv role content = Ok (conv', self')
    ∧ Z.of_nat (length (user_messages conv')) ≤ cm_max_turns self
    ∧ last conv' = Some (mkMsg (Some role) (Some content))
    ∧ (∃ cut, conv ++ [mkMsg (Some role) (Some content)] = cut ++ conv')
    ∧ cm_max_turns self' = cm_max_turns self
    ∧ cm_auto_trim self' = cm_auto_trim self.
Proof.
  intros Hmax Hauto. unfold add_message. rewrite Hauto. simpl.
  set (conv1 := conv ++ [mkMsg (Some role) (Some content)]).
  destruct (should_trim_conversation conv1 (cm_max_turns self)) eqn:Hshould.
  2: { exists conv1, self. split; [done |].
       unfold should_trim_conversation in Hshould. apply Z.ltb_ge in Hshould.
       split; [done |]. split; [apply last_snoc |].
       split; [by exists [] | done]. }
  destruct (trim_conversation_turns_facts today conv1 (cm_state self)
              (cm_max_turns self) true Hmax)
    as (kept & removed & st' & Hok & Hcount & Hfront).
  destruct (trim_conversation_effect_facts _ _ _ _ _ _ _ _ Hok)
    as (Hsuffix & Hremoved & _).
  rewrite Hok. eexists _, _. split; [done |].
  split; [lia |]. split.
  - unfold should_trim_conversation in Hshould. apply Z.ltb_lt in Hshould.
    assert (Hne : kept ≠ []).
    { intros ->. simpl in Hcount. lia. }
    assert (Hlast : last conv1 = Some (mkMsg (Some role) (Some content)))
      by apply last_snoc.
    rewrite Hsuffix, last_app in Hlast.
    destruct (last kept) eqn:Hl; [done |]. by apply last_None in Hl.
  - split; [by eexists | done].
Qed.

Lemma add_message_bounded_witness :
  ∃ conv' self',
    add_message "2024-05-01" (mkManager (create_default "u") 2 true)
      five_turns "user" "q6" = Ok (conv', self')
    ∧ Z.of_nat (length (user_messages conv')) ≤ 2.
Proof.
  destruct (add_message_bounded "2024-05-01"
              (mkManager (create_default "u") 2 true) five_turns "user" "q6")
    as (conv' & self' & Hok & Hcount & _); [simpl; lia | reflexivity |].
  exists conv', self'. by split.
Defined.

(** ** Bounding the stored notes *)

Lemma trim_notes_spec m max_notes :
  (1 ≤ max_notes →
     get_notes (trim_notes m max_notes) = last_n (Z.to_nat max_notes) (get_notes m))
  ∧ (max_notes = 0 → trim_notes m max_notes = m).
Proof.
  unfold trim_notes, get_notes, last_n, slice_from. destruct m as [[l |]]; simpl.
  - split.
    + intros Hmax. destruct (max_notes <? _) eqn:Hlt; simpl.
      * apply Z.ltb_lt in Hlt. rewrite (proj2 (Z.ltb_lt _ _)) by lia.
        f_equal. lia.
      * apply Z.ltb_ge in Hlt.
        replace (length l - Z.to_nat max_notes)%nat with 0%nat by lia. done.
    + intros ->. by destruct (0 <? _).
  - split; [| done]. intros _. done.
Qed.

(** X25: with limits of at least 1, [trim_memories_if_needed] leaves in
    each scope the last [max] notes (all of them when there are fewer);
    with a limit of 0 it removes nothing from that scope; profile,
    history and reinjection flag are never touched. *)
Theorem trim_memories_if_needed_spec st max_global max_session :
  let st' := trim_memories_if_needed st max_global max_session in
  (1 ≤ max_global →
     get_notes (global_memory st')
       = last_n (Z.to_nat max_global) (get_notes (global_memory st))
     ∧ Z.of_nat (length (get_notes (global_memory st'))) ≤ max_global)
  ∧ (1 ≤ max_session →
     get_notes (session_memory st')
       = last_n (Z.to_nat max_session) (get_notes (session_memory st))
     ∧ Z.of_nat (length (get_notes (session_memory st'))) ≤ max_session)
  ∧ (max_global = 0 → global_memory st' = global_memory st)
  ∧ (max_session = 0 → session_memory st' = session_memory st)
  ∧ profile st' = profile st
  ∧ visualization_history st' = visualization_history st
  ∧ inject_session_memories_next_turn st' = inject_session_memories_next_turn st.
Proof.
  unfold trim_memories_if_needed. simpl.
  destruct (trim_notes_spec (global_memory st) max_global) as [Hg Hg0].
  destruct (trim_notes_spec (session_memory st) max_session) as [Hs Hs0].
  split.
  { intros H1. rewrite Hg by done. split; [done |]. rewrite last_n_length. lia. }
  split.
  { intros H1. rewrite Hs by done. split; [done |]. rewrite last_n_length. lia. }
  done.
Qed.

Lemma trim_memories_if_needed_spec_witness :
  get_notes (global_memory (trim_memories_if_needed three_note_state 1 1))
  = last_n 1 (get_notes (global_memory three_note_state)).
Proof.
  destruct (trim_memories_if_needed_spec three_note_state 1 1) as [Hg _].
  destruct Hg as [Hg _]; [lia |]. exact Hg.
Defined.

(** ** The reinjection message *)

Lemma chars_app a b : Py.chars (a +:+ b) = Py.chars a ++ Py.chars b.
Proof. unfold Py.chars. induction a as [| c a IH]; simpl; [done | by rewrite IH]. Qed.

Lemma is_prefix_app p l : Py.is_prefix p (p ++ l) = true.
Proof.
  induction p as [| c p IH]; simpl; [done |].
  by rewrite Ascii.eqb_refl, IH.
Qed.

Lemma find_sub_infix p a b : Py.find_sub p (a ++ p ++ b) = true.
Proof.
  induction a as [| c a IH].
  - simpl app. destruct (p ++ b) eqn:Hpb; simpl.
    + destruct p; [done | discriminate].
    + rewrite <- Hpb, is_prefix_app. done.
  - simpl. rewrite IH. apply orb_true_r.
Qed.

Lemma contains_infix p s a b :
  Py.chars s = a ++ Py.chars p ++ b → Py.contains p s = true.
Proof. unfold Py.contains. intros ->. apply find_sub_infix. Qed.

Lemma join_infix sep parts p :
  p ∈ parts → ∃ a b, Py.chars (Py.join sep parts) = a ++ Py.chars p ++ b.
Proof.
  induction parts as [| q parts IH]; [by intros ?%elem_of_nil |].
  intros Hp. destruct parts as [| q' parts].
  - apply list_elem_of_singleton in Hp as ->. exists [], []. simpl.
    by rewrite app_nil_r.
  - change (Py.join sep (q :: q' :: parts))
      with (q +:+ sep +:+ Py.join sep (q' :: parts)).
    rewrite !chars_app.
    apply elem_of_cons in Hp as [-> | Hp].
    + exists [], (Py.chars sep ++ Py.chars (Py.join sep (q' :: parts))). done.
    + destruct (IH Hp) as (a & b & ->).
      exists (Py.chars q ++ Py.chars sep ++ a), b.
      by rewrite <- !app_assoc.
Qed.

Lemma infix_app_l p x s :
  (∃ a b, Py.chars s = a ++ Py.chars p ++ b) →
  ∃ a b, Py.chars (x +:+ s) = a ++ Py.chars p ++ b.
Proof.
  intros (a & b & Hs). exists (Py.chars x ++ a), b.
  rewrite (chars_app x s), Hs. by rewrite <- app_assoc.
Qed.

Lemma infix_app_r p s y :
  (∃ a b, Py.chars s = a ++ Py.chars p ++ b) →
  ∃ a b, Py.chars (s +:+ y) = a ++ Py.chars p ++ b.
Proof.
  intros (a & b & Hs). exists a, (b ++ Py.chars y).
  rewrite (chars_app s y), Hs. by rewrite <- !app_assoc.
Qed.

Lemma reinjection_message_infix st line :
  line ∈ map (λ d, "- " +:+ d_text d +:+ " (Updated: "
                   +:+ d_last_update_date d +:+ ")")
             (get_notes (session_memory st)) →
  ∃ a b, Py.chars (fst (create_reinjection_message st))
         = a ++ Py.chars line ++ b.
Proof.
  intros Hline. unfold create_reinjection_message. cbn [fst].
  do 6 apply infix_app_l. apply infix_app_r.
  unfold render_memories_as_markdown.
  destruct (get_notes (session_memory st)) as [| d ds] eqn:Hnotes;
    [by apply elem_of_nil in Hline |].
  apply join_infix. by right.
Qed.

(** X26: [create_reinjection_message] clears the reinjection flag, leaves
    the rest of the state as it was, and its message contains one line
    for every session note, made of the note's text and date. *)
Theorem create_reinjection_message_spec st :
  let r := create_reinjection_message st in
  should_reinject_session_memories (snd r) = false
  ∧ session_memory (snd r) = session_memory st
  ∧ global_memory (snd r) = global_memory st
  ∧ profile (snd r) = profile st
  ∧ visualization_history (snd r) = visualization_history st
  ∧ ∀ d, d ∈ get_notes (session_memory st) →
      Py.contains ("- " +:+ d_text d +:+ " (Updated: "
                   +:+ d_last_update_date d +:+ ")") (fst r) = true.
Proof.
  repeat (split; [done |]).
  intros d Hd.
  destruct (reinjection_message_infix st
              ("- " +:+ d_text d +:+ " (Updated: "
               +:+ d_last_update_date d +:+ ")")) as (a & b & Hinfix).
  - apply list_elem_of_In, in_map_iff. exists d. split; [done |].
    by apply list_elem_of_In.
  - by eapply contains_infix.
Qed.

Lemma create_reinjection_message_spec_witness :
  Py.contains "- User prefers bar charts (Updated: 2024-05-01)"
    (fst (create_reinjection_message bar_chart_session)) = true.
Proof.
  destruct (create_reinjection_message_spec bar_chart_session)
    as (_ & _ & _ & _ & _ & Hlines).
  apply (Hlines (to_dict bar_note_1)). vm_compute. left.
Defined.

(** X27: trimming and reinjection fit together: after a trim that cut
    messages off with [preserve_context], the state asks for reinjection,
    and the reinjection message then built contains the summary of the
    removed messages and clears the request. *)
Theorem trim_then_reinject today conv st max_turns kept removed st1 :
  trim_conversation today conv st max_turns true = Ok (kept, removed, st1) →
  0 < removed →
  should_reinject_session_memories st1 = true
  ∧ Py.contains
      (Py.strip (_extract_context_from_trimmed (take (Z.to_nat removed) conv)))
      (fst (create_reinjection_message st1)) = true
  ∧ should_reinject_session_memories (snd (create_reinjection_message st1))
    = false.
Proof.
  intros Hok Hremoved.
  destruct (trim_conversation_cases today conv st max_turns true)
    as [Hsame | [Hraise | (k & c & Hc & _ & _ & Hcut)]].
  - rewrite Hsame in Hok. injection Hok as <- <- <-. lia.
  - congruence.
  - rewrite Hcut in Hok. injection Hok as <- <- <-.
    rewrite Nat2Z.id in *.
    apply user_indices_bound in Hc.
    rewrite length_take, Nat.min_l by lia.
    rewrite length_take, Nat.min_l in Hremoved by lia.
    destruct (take c conv) as [| m rest] eqn:Htake.
    { apply (f_equal length) in Htake. rewrite length_take in Htake.
      simpl in Htake. lia. }
    split; [done |]. split; [| done].
    set (summary := _extract_context_from_trimmed (m :: rest)).
    set (st1 := set_inject _ true).
    destruct (reinjection_message_infix st1
                ("- " +:+ Py.strip summary +:+ " (Updated: "
                 +:+ today +:+ ")")) as (a & b & Hinfix).
    { apply list_elem_of_In, in_map_iff.
      exists (mkNoteDict (Py.strip summary) today
                (clean_keywords ["context"; "conversation"])).
      split; [done |]. subst st1. unfold add_memory_note. simpl.
      apply in_or_app. right. by left. }
    rewrite (chars_app "- "), (chars_app (Py.strip summary)) in Hinfix.
    eapply (contains_infix _ _ (a ++ Py.chars "- ")).
    rewrite Hinfix. rewrite <- !app_assoc. reflexivity.
Qed.

Lemma trim_then_reinject_witness :
  ∃ kept st1,
    trim_conversation "2024-05-01" five_turns (create_default "u") 2 true
      = Ok (kept, 6, st1)
    ∧ should_reinject_session_memories st1 = true.
Proof.
  destruct (trim_conversation "2024-05-01" five_turns (create_default "u") 2 true)
    as [[[kept removed] st1] | e] eqn:Htrim;
    [| vm_compute in Htrim; discriminate].
  assert (removed = 6) as -> by (vm_compute in Htrim; congruence).
  exists kept, st1. split; [reflexivity |].
  destruct (trim_then_reinject _ _ _ _ _ _ _ Htrim) as [Hflag _]; [lia |].
  exact Hflag.
Defined.

(** ** What a search cannot find *)

Lemma normalise_idem k :
  Py.lower (Py.strip (Py.lower (Py.strip k))) = Py.lower (Py.strip k).
Proof.
  assert (Hstrip : ∀ s, Py.strip s = Py.str (strip_chars (Py.chars s)))
    by reflexivity.
  rewrite (Hstrip k), lower_str, Hstrip, chars_str.
  rewrite strip_chars_lower, strip_chars_idem, <- lower_str.
  apply lower_idem.
Qed.

Lemma search_memories_hit st query include_session include_global note :
  query ≠ [] →
  note ∈ search_memories st (Some query) include_session include_global →
  ∃ k, k ∈ query ∧ Py.lower (Py.strip k) ∈ keywords note.
Proof.
  intros Hq Hin. unfold search_memories in Hin. simpl in Hin.
  set (sk := list_to_set (map (λ k, Py.lower (Py.strip k)) query) : gset string)
    in Hin.
  set (hit := λ note : MemoryNote,
         bool_decide (sk = ∅)
         || existsb (λ kw, bool_decide (kw ∈ sk)) (keywords note)) in Hin.
  assert (Hhit : hit note = true).
  { apply elem_of_app in Hin as [Hin | Hin].
    - destruct include_global; [| by apply elem_of_nil in Hin].
      destruct (notes (global_memory st)); [| by apply elem_of_nil in Hin].
      apply list_elem_of_In, filter_In in Hin. tauto.
    - destruct include_session; [| by apply elem_of_nil in Hin].
      destruct (notes (session_memory st)); [| by apply elem_of_nil in Hin].
      apply list_elem_of_In, filter_In in Hin. tauto. }
  unfold hit in Hhit. apply orb_true_iff in Hhit as [Hempty | Hex].
  - apply bool_decide_eq_true in Hempty.
    destruct query as [| k query]; [done |].
    assert (Py.lower (Py.strip k) ∈ sk) as Hk by (unfold sk; set_solver).
    rewrite Hempty in Hk. set_solver.
  - apply existsb_exists in Hex as (kw & Hkw & Hin').
    apply bool_decide_eq_true in Hin'. unfold sk in Hin'.
    apply elem_of_list_to_set, list_elem_of_In, in_map_iff in Hin'
      as (k & <- & Hk).
    exists k. split; [by apply list_elem_of_In | by apply list_elem_of_In].
Qed.

(** X28: stored keywords are compared as they are, while query keywords
    are trimmed and lower-cased first; so a note none of whose keywords
    is already trimmed and lower-case is never returned by a search with
    a non-empty query. *)
Theorem search_memories_misses_unnormalised st query include_session
    include_global note :
  query ≠ [] →
  (∀ kw, kw ∈ keywords note → Py.lower (Py.strip kw) ≠ kw) →
  note ∉ search_memories st (Some query) include_session include_global.
Proof.
  intros Hq Hraw Hin.
  destruct (search_memories_hit _ _ _ _ _ Hq Hin) as (k & _ & Hk).
  apply (Hraw _ Hk), normalise_idem.
Qed.

Lemma search_memories_misses_unnormalised_witness :
  mkNote "User prefers bar charts" "2024-05-01" ["Bar"]
  ∉ search_memories
      (set_global_memory (create_default "u")
         (mkMemory (Some [mkNoteDict "User prefers bar charts" "2024-05-01"
                            ["Bar"]])))
      (Some ["Bar"]) true true.
Proof.
  apply search_memories_misses_unnormalised; [discriminate |].
  intros kw Hkw. apply list_elem_of_singleton in Hkw as ->. by vm_compute.
Defined.

(** ** The summary of removed messages *)

Lemma fromkeys_aux_sublist {A} `{EqDecision A} (seen l : list A) :
  sublist (Py.fromkeys_aux seen l) l.
Proof.
  revert seen. induction l as [| x l IH]; intros seen; simpl; [constructor |].
  destruct (decide (x ∈ seen)); by constructor.
Qed.

(** X29: the summary of removed messages is a fixed placeholder when no
    message gives a point; otherwise it is the heading
    [Earlier in conversation: ] followed by between one and five
    pairwise distinct points taken, in order, from those the messages
    give, joined by [; ]. *)
Theorem extract_context_spec messages :
  let points := concat (map context_points_of messages) in
  (points = [] →
     _extract_context_from_trimmed messages
     = "Earlier conversation trimmed (no specific context preserved)")
  ∧ (points ≠ [] →
     ∃ shown,
       _extract_context_from_trimmed messages
         = "Earlier in conversation: " +:+ Py.join "; " shown
       ∧ NoDup shown
       ∧ (1 ≤ length shown ≤ 5)%nat
       ∧ sublist shown points).
Proof.
  intros points. unfold _extract_context_from_trimmed. fold points.
  split; [by intros -> |].
  intros Hne. destruct points as [| p ps] eqn:Hp; [done |].
  exists (take 5 (Py.fromkeys (p :: ps))).
  destruct (fromkeys_spec (p :: ps)) as [Hnd _].
  split; [done |]. split; [eapply sublist_NoDup; [exact Hnd | apply sublist_take] |].
  split.
  - rewrite length_take.
    assert (Hlen : length (Py.fromkeys (p :: ps))
                   = S (length (Py.fromkeys_aux [p] ps))) by reflexivity.
    rewrite Hlen. lia.
  - etrans; [apply sublist_take | apply fromkeys_aux_sublist].
Qed.

Lemma extract_context_spec_witness :
  _extract_context_from_trimmed [assistant_says "hello"]
  = "Earlier conversation trimmed (no specific context preserved)".
Proof.
  destruct (extract_context_spec [assistant_says "hello"]) as [Hnone _].
  apply Hnone. by vm_compute.
Defined.

(** ** What a history entry records *)

(** X30: [add_visualization_to_history] puts the new entry last; it
    carries the given chart type, summary, success flag and time stamp,
    and its code preview is absent when no snippet or an empty one was
    given and otherwise is the first 200 characters of the snippet. *)
Theorem add_visualization_records now st ctype summary code_snippet ok :
  let st' := add_visualization_to_history now st ctype summary code_snippet ok in
  ∃ e,
    last (visualization_history st') = Some e
    ∧ timestamp e = now ∧ chart_type e = ctype
    ∧ story_summary e = summary ∧ success e = ok
    ∧ (code_preview e = None ↔
       code_snippet = None ∨ code_snippet = Some EmptyString)
    ∧ (∀ preview, code_preview e = Some preview →
         ∃ s, code_snippet = Some s
              ∧ Py.chars preview = take 200 (Py.chars s)
              ∧ (length (Py.chars preview) ≤ 200)%nat).
Proof.
  simpl. unfold add_visualization_to_history.
  set (e := mkEntry now ctype summary ok _).
  exists e. split.
  { destruct (50 <? _) eqn:Hlen; simpl; [| apply last_snoc].
    apply Z.ltb_lt in Hlen. rewrite length_app in *. simpl in *.
    rewrite drop_app_le by lia.
    apply last_snoc. }
  repeat (split; [done |]).
  subst e. simpl. destruct code_snippet as [[| c s] |]; simpl.
  - split; [split; [by right | done] |]. intros preview [=].
  - split; [split; [done | intros [[=] | [=]]] |].
    intros preview [= <-]. exists (String c s). split; [done |].
    unfold Py.slice_to. rewrite chars_str. split; [done |].
    rewrite length_take. lia.
  - split; [split; [by left | done] |]. intros preview [=].
Qed.

Lemma add_visualization_records_witness :
  ∃ e,
    last (visualization_history
            (add_visualization_to_history "2024-05-01T00:00:00+00:00"
               (create_default "u") "bar" "Sales by region"
               (Some "fig = px.bar(df)") true)) = Some e
    ∧ code_preview e = Some "fig = px.bar(df)".
Proof.
  destruct (add_visualization_records "2024-05-01T00:00:00+00:00"
              (create_default "u") "bar" "Sales by region"
              (Some "fig = px.bar(df)") true)
    as (e & Hlast & _).
  exists e. split; [exact Hlast |].
  vm_compute in Hlast. injection Hlast as <-. reflexivity.
Defined.
